(** * The Nexus plot decoder and its summary converter

    A shallow embedding of [nexus_plot.cpp] (the functions [read_header],
    [read_varnames], [read_vars], [nex::load], [field_smspec] and
    [nex::ecl_summary]) together with the properties the specification
    states about them.

    Conventions of the embedding:
    - a [std::istream] is a record holding the bytes behind it, the get
      position and the two state bits the code inspects;
    - a C++ exception is the outcome [Throw], undefined behaviour (a float
      that does not fit the integer it is cast to, an index past the end of
      a vector, a signed overflow) is the outcome [Undefined];
    - [int32_t] and [uint32_t] are integers of [Z] with the wrap-around
      written out; a [float] is its 32-bit pattern, given a value through
      the IEEE-754 binary32 reading of [SpecFloat];
    - what the repository declares outside the files at hand (the layout of
      [NexusHeader], the constructor of [UnitSystem], the table from variable
      codes to measures) and what the platform leaves open (the bytes of an
      uninitialised buffer, the order [std::sort] gives to equal keys) are
      the fields of one environment record, [Env]. *)

From Stdlib Require Import ZArith List Bool Lia Permutation Sorted SpecFloat.
From Stdlib Require Import Strings.Byte Strings.String.
From stdpp Require Import base option list gmap strings.

Import ListNotations.

#[local] Open Scope Z_scope.
#[local] Open Scope nat_scope.

(** ** Bytes and fixed-width tokens *)

#[global] Instance byte_eq_dec : EqDecision byte := Byte.byte_eq_dec.

#[global] Instance byte_countable : Countable byte :=
  inj_countable Byte.to_N Byte.of_N Byte.of_to_N.

(** A [str<N>], that is a [std::array<char, N>], is the list of its [N]
    bytes. *)

Definition bytes_of (s : string) : list byte := list_byte_of_string s.

Definition byte_val (b : byte) : Z := Z.of_N (Byte.to_N b).

Definition space : byte := " "%byte.

(** [std::equal(begin(a), end(a), begin(b))] on two byte ranges of one
    length. *)
Definition bytes_eqb (a b : list byte) : bool := bool_decide (a = b).

(** ** 32-bit words *)

Definition two32 : Z := 4294967296%Z.
Definition INT_MAX : Z := 2147483647%Z.
Definition INT_MIN : Z := (-2147483648)%Z.

(** Conversion of an integer to [uint32_t] and to [int32_t]. *)
Definition to_uint32 (i : Z) : Z := (i mod two32)%Z.

Definition to_int32 (u : Z) : Z :=
  let r := (u mod two32)%Z in
  if (r <=? INT_MAX)%Z then r else (r - two32)%Z.

(** The [uint32_t] that four bytes of memory hold on the little-endian
    host. *)
Definition uint32_of_mem (m : list byte) : Z :=
  match m with
  | [b0; b1; b2; b3] =>
      (byte_val b0 + 256 * byte_val b1 + 65536 * byte_val b2
       + 16777216 * byte_val b3)%Z
  | _ => 0%Z
  end.

(** The big-endian reading of four bytes. *)
Definition be_uint32 (m : list byte) : Z :=
  match m with
  | [b0; b1; b2; b3] =>
      (16777216 * byte_val b0 + 65536 * byte_val b1 + 256 * byte_val b2
       + byte_val b3)%Z
  | _ => 0%Z
  end.

(** [ntohl] on the little-endian host: the four bytes of the word are
    reversed. *)
Definition ntohl (ui : Z) : Z :=
  Z.lor (Z.shiftl (Z.land ui 255) 24)
    (Z.lor (Z.shiftl (Z.land (Z.shiftr ui 8) 255) 16)
       (Z.lor (Z.shiftl (Z.land (Z.shiftr ui 16) 255) 8)
          (Z.land (Z.shiftr ui 24) 255))).

(** [uint32_t ntoh(uint32_t ui) { return ntohl(ui); }] *)
Definition ntoh (ui : Z) : Z := ntohl ui.

(** [std::transform(buf.begin(), buf.end(), buf.begin(), ntoh)] on a buffer
    of [int32_t]: each element is converted to [uint32_t], swapped, and
    stored back as [int32_t]. *)
Definition ntoh_int32 (i : Z) : Z := to_int32 (ntoh (to_uint32 i)).

(** The [int32_t] elements of a buffer, given the bytes of its memory. *)
Fixpoint int32s_of_mem (n : nat) (m : list byte) : list Z :=
  match n with
  | O => []
  | S n' => to_int32 (uint32_of_mem (take 4 m)) :: int32s_of_mem n' (drop 4 m)
  end.

(** ** Floats *)

(** A [float] is kept as its bit pattern, 0 <= bits < 2^32. *)
Record float := Float { float_bits : Z }.

#[global] Instance float_eq_dec : EqDecision float.
Proof. solve_decision. Defined.

(** [interpret_float]: the [memcpy] of an [int32_t] into a [float]. *)
Definition interpret_float (i : Z) : float := Float (to_uint32 i).

Definition prec : Z := 24%Z.
Definition emax : Z := 128%Z.

(** The IEEE-754 binary32 reading of a bit pattern. *)
Definition float_val (f : float) : spec_float :=
  let b := float_bits f in
  let s := Z.testbit b 31 in
  let e := Z.land (Z.shiftr b 23) 255 in
  let m := Z.land b 8388607 in
  if (e =? 0)%Z then
    match m with
    | Zpos p => S754_finite s p (-149)
    | _ => S754_zero s
    end
  else if (e =? 255)%Z then
    match m with
    | Z0 => S754_infinity s
    | _ => S754_nan
    end
  else
    match (m + 8388608)%Z with
    | Zpos p => S754_finite s p (e - 150)
    | _ => S754_nan
    end.

(** The integer part of a finite binary float, rounded towards zero. *)
Definition SFtrunc (x : spec_float) : option Z :=
  match x with
  | S754_zero _ => Some 0%Z
  | S754_finite s m e =>
      let a := if (0 <=? e)%Z then (Zpos m * 2 ^ e)%Z
               else (Zpos m / 2 ^ (- e))%Z in
      Some (if s then (- a)%Z else a)
  | _ => None
  end.

(** [(int32_t) f]: the value is truncated; the conversion is undefined when
    the truncated value is not an [int32_t] (and for infinities and NaN). *)
Definition float_to_int32 (f : float) : option Z :=
  match SFtrunc (float_val f) with
  | Some z => if ((INT_MIN <=? z) && (z <=? INT_MAX))%Z then Some z else None
  | None => None
  end.

(** [86400.f] *)
Definition f86400 : spec_float := S754_finite false 11059200 (-7).

(** [t * 86400.f], a binary32 product. *)
Definition float_mul_86400 (t : float) : spec_float :=
  SFmul prec emax (float_val t) f86400.

Definition float_ltb (a b : float) : bool := SFltb (float_val a) (float_val b).
Definition float_eqb (a b : float) : bool := SFeqb (float_val a) (float_val b).

(** ** Outcomes *)

(** The exception classes of [nexus/util.hpp] the code throws
    ([read_error], [bad_header], [unexpected_eof]), the two further error
    kinds the specification names, and [std::length_error], which the
    constructor of a vector throws for a size it cannot hold. *)
Inductive exception : Type :=
  | ReadError
  | BadHeader
  | UnexpectedEof
  | UnrecognizedUnitSystem
  | InconsistentTimeAxis
  | LengthError.

#[global] Instance exception_eq_dec : EqDecision exception.
Proof. solve_decision. Defined.

Inductive outcome (A : Type) : Type :=
  | Ok (a : A)
  | Throw (e : exception)
  | Undefined.

Arguments Ok {A} a.
Arguments Throw {A} e.
Arguments Undefined {A}.

(** ** The input stream *)

(** [past_end_seek] tells the two kinds of stream buffer apart: a file
    buffer accepts a seek past the end of the file (the next read finds
    nothing), a string buffer refuses it. *)
Record istream : Type := Istream {
  content : list byte;
  pos : nat;
  eofbit : bool;
  failbit : bool;
  past_end_seek : bool
}.

(** The stream [std::ifstream stream(filename, std::ios::binary)] gives on
    a file holding [bs]. *)
Definition open_file (bs : list byte) : istream := Istream bs 0 false false true.

Definition good (s : istream) : bool := negb (eofbit s) && negb (failbit s).
Definition eof (s : istream) : bool := eofbit s.

Definition set_pos (p : nat) (s : istream) : istream :=
  Istream (content s) p (eofbit s) (failbit s) (past_end_seek s).
Definition clear_eof (s : istream) : istream :=
  Istream (content s) (pos s) false (failbit s) (past_end_seek s).
Definition set_fail (s : istream) : istream :=
  Istream (content s) (pos s) (eofbit s) true (past_end_seek s).
Definition set_eof_fail (s : istream) : istream :=
  Istream (content s) (pos s) true true (past_end_seek s).

(** [seekg]: [eofbit] is cleared first; a failed stream is left alone. *)
Definition seek_to (p : nat) (s : istream) : istream :=
  let s := clear_eof s in
  if failbit s then s
  else if (p <=? length (content s)) || past_end_seek s then set_pos p s
  else set_fail s.

Definition seekg_beg (off : nat) (s : istream) : istream := seek_to off s.
Definition seekg_cur (off : nat) (s : istream) : istream :=
  seek_to (pos s + off) s.

(** [stream.read(buf, n)], [buf] being the [n] bytes the destination held
    before; the result is the [n] bytes it holds after.  The bytes extracted
    overwrite the front of the destination; a short count sets [eofbit] and
    [failbit]; nothing is extracted from a stream that is not good. *)
Definition read (n : nat) (buf : list byte) (s : istream)
  : list byte * istream :=
  if good s then
    let got := take n (drop (pos s) (content s)) in
    let s' := set_pos (pos s + length got) s in
    (take n (got ++ drop (length got) buf),
     if length got =? n then s' else set_eof_fail s')
  else (take n buf, set_fail s).

Definition zeros (n : nat) : list byte := replicate n "000"%byte.

(** ** The data model of [nexus/util.hpp] and [nexus/unit.hpp] *)

(** Modelled from the spec: [enum class UnitSystem::UnitType] of
    [nexus/unit.hpp], which is not among the files at hand.  The unit test
    names [metric_bars]; the specification names the variants metric,
    metric-bars, english and lab. *)
Inductive UnitType : Type := metric | metric_bars | english | lab.

(** [enum class UnitSystem::Measure], the measures the unit test lists. *)
Inductive Measure : Type :=
  | compressibility | density | formation_volume_factor_gas
  | formation_volume_factor_oil | fraction | gas_liquid_ratio | length_
  | moles | permeability | pressure | pressure_absolute | reservoir_rates
  | reservoir_volumes | surface_rates_gas | surface_rates_liquid
  | surface_volumes_gas | surface_volumes_liquid | temperature | time_
  | viscosity | volume | water_cut.

(** [struct NexusHeader]: the aggregate [read_header] builds, a unit system
    followed by the eight integers of the buffer in the order read. *)
Record NexusHeader : Type := {
  unit_system : UnitType;
  header_ints : list Z
}.

(** [struct NexusData], one decoded sample. *)
Record NexusData : Type := {
  timestep : Z;
  time : float;
  max_perfs : Z;
  classname : list byte;
  instancename : list byte;
  varname : list byte;
  value : float
}.

#[global] Instance NexusData_eq_dec : EqDecision NexusData.
Proof. solve_decision. Defined.

(** [struct NexusPlot] *)
Record NexusPlot : Type := {
  header : NexusHeader;
  data : list NexusData
}.

(** The positions, among the eight integers, of the members of
    [NexusHeader] the code names. *)
Record HeaderLayout : Type := {
  ix_num_classes : nat;
  ix_day : nat;
  ix_month : nat;
  ix_year : nat;
  ix_nx : nat;
  ix_ny : nat;
  ix_nz : nat
}.

(** The environment: what is declared outside the files at hand, and what
    the platform leaves open.
    - [indeterminate n]: the bytes an uninitialised [std::array<char, n>]
      happens to hold;
    - [UnitSystem_of_tag]: the constructor [UnitSystem(std::array<char,6>)];
    - [layout]: the order of the integer members of [NexusHeader];
    - [measure_of_varname], [unit_str_other]: the tables behind
      [UnitSystem::unit_str];
    - [std_sort]: what [std::sort] with [cmp::timestep] returns. *)
Record Env : Type := {
  indeterminate : nat -> list byte;
  UnitSystem_of_tag : list byte -> outcome UnitType;
  layout : HeaderLayout;
  measure_of_varname : string -> Measure;
  unit_str_other : UnitType -> Measure -> string;
  std_sort : list NexusData -> list NexusData
}.

Definition header_field (h : NexusHeader) (i : nat) : Z :=
  nth i (header_ints h) 0%Z.

(** ** The monad of the decoder: a stream threaded through, exceptions,
    undefined behaviour *)

Definition M (A : Type) : Type := istream -> outcome (A * istream).

Definition ret {A} (a : A) : M A := fun s => Ok (a, s).

Definition bind {A B} (m : M A) (k : A -> M B) : M B :=
  fun s =>
    match m s with
    | Ok (a, s') => k a s'
    | Throw e => Throw e
    | Undefined => Undefined
    end.

Definition throw {A} (e : exception) : M A := fun _ => Throw e.
Definition undefined {A} : M A := fun _ => Undefined.

Definition lift {A} (o : outcome A) : M A :=
  fun s =>
    match o with
    | Ok a => Ok (a, s)
    | Throw e => Throw e
    | Undefined => Undefined
    end.

Notation "'let*' x ':=' m 'in' k" := (bind m (fun x => k))
  (at level 10, x pattern, m at level 100, k at level 200).
Notation "m '>>' k" := (bind m (fun _ => k))
  (at level 70, right associativity).

Definition seekg_begM (off : nat) : M unit := fun s => Ok (tt, seekg_beg off s).
Definition seekg_curM (off : nat) : M unit := fun s => Ok (tt, seekg_cur off s).
Definition readM (n : nat) (buf : list byte) : M (list byte) :=
  fun s => Ok (read n buf s).
Definition goodM : M bool := fun s => Ok (good s, s).
Definition eofM : M bool := fun s => Ok (eof s, s).

Definition negative (x : Z) : bool := (x <? 0)%Z.

(** The [k]-th of the 4-byte tokens of a buffer:
    [memcpy(varname.data(), buf.data() + k*4, 4)]. *)
Definition token4 (buf : list byte) (k : nat) : list byte :=
  take 4 (drop (k * 4) buf).

Section Decoder.

Variable E : Env.

(** [read_str<N>]: the buffer is uninitialised before the read. *)
Definition read_str (N : nat) : M (list byte) := readM N (indeterminate E N).

Definition th0 : list byte := bytes_of "PLOT  BIN   ".

Definition read_header : M NexusHeader :=
  seekg_begM 4 >>
  let* th1 := read_str 12 in
  let ok := bytes_eqb th1 th0 in
  let* g := goodM in
  if negb ok || negb g then throw BadHeader else
  seekg_curM 6 >>
  seekg_curM 6 >>
  seekg_curM 6 >>
  seekg_curM 6 >>
  let* us := read_str 6 in
  let* g := goodM in
  if negb g then throw UnexpectedEof else
  let* unit_system := lift (UnitSystem_of_tag E us) in
  seekg_curM (530 + 264) >>
  let* mem := readM (8 * 4) (zeros (8 * 4)) in
  let* g := goodM in
  if negb g then throw UnexpectedEof else
  let buf := map ntoh_int32 (int32s_of_mem 8 mem) in
  if existsb negative buf then throw BadHeader else
  ret {| unit_system := unit_system; header_ints := buf |}.

Definition num_classes (h : NexusHeader) : Z :=
  header_field h (ix_num_classes (layout E)).

(** The first loop of [read_varnames]: [classname] is declared outside the
    loop, so a read that stores nothing leaves the previous name in it. *)
Fixpoint read_classnames (n : nat) (classname : list byte)
  : M (list (list byte)) :=
  match n with
  | O => ret []
  | S n' =>
      let* classname := readM 8 classname in
      let* rest := read_classnames n' classname in
      ret (classname :: rest)
  end.

(** [varnames[c].push_back(v)] *)
Definition push_back_at (c v : list byte)
    (varnames : gmap (list byte) (list (list byte)))
  : gmap (list byte) (list (list byte)) :=
  <[c := default [] (varnames !! c) ++ [v]]> varnames.

(** The second loop of [read_varnames], over the classes and their
    counts. *)
Fixpoint read_class_vars (cs : list (list byte * Z))
    (varnames : gmap (list byte) (list (list byte)))
  : M (gmap (list byte) (list (list byte))) :=
  match cs with
  | [] => ret varnames
  | (c, n) :: cs' =>
      let varnames := <[c := []]> varnames in
      seekg_curM 4 >>
      if (INT_MAX <? n * 4)%Z then undefined else
      let len := Z.to_nat (n * 4) in
      let* buf := readM len (zeros len) in
      let varnames :=
        foldl (fun m k => push_back_at c (token4 buf k) m) varnames
              (seq 0 (Z.to_nat n)) in
      seekg_curM 8 >>
      read_class_vars cs' varnames
  end.

Definition read_varnames (num_classes : Z)
  : M (gmap (list byte) (list (list byte))) :=
  if (num_classes <? 0)%Z then throw LengthError else
  seekg_curM 8 >>
  let* classnames :=
    read_classnames (Z.to_nat num_classes) (indeterminate E 8) in
  seekg_curM 8 >>
  if (INT_MAX <? num_classes * 4)%Z then undefined else
  let len := Z.to_nat (num_classes * 4) in
  let* mem := readM len (zeros len) in
  let vars_in_class :=
    map ntoh_int32 (int32s_of_mem (Z.to_nat num_classes) mem) in
  if existsb negative vars_in_class then throw BadHeader else
  seekg_curM 8 >>
  let* varnames := read_class_vars (zip classnames vars_in_class) ∅ in
  let* e := eofM in
  let* g := goodM in
  if e || negb g then throw UnexpectedEof else
  ret varnames.

(** [read_vars]: the values are read without a check of the stream; the
    buffer starts zeroed. *)
Definition read_vars (data : list NexusData) (timestep : Z) (time : float)
    (max_perfs : Z) (classname instancename : list byte)
    (varnames : list (list byte)) : M (list NexusData) :=
  let n := length varnames in
  let* mem := readM (n * 4) (zeros (n * 4)) in
  let values := map ntoh_int32 (int32s_of_mem n mem) in
  ret (data ++
       zip_with (fun v x =>
                   {| timestep := timestep; time := time;
                      max_perfs := max_perfs; classname := classname;
                      instancename := instancename; varname := v;
                      value := interpret_float x |})
                varnames values).

Definition stop : list byte := bytes_of "STOP    ".

(** [(int32_t) interpret_float(w)] *)
Definition cast_int32 (w : Z) : M Z :=
  match float_to_int32 (interpret_float w) with
  | Some z => ret z
  | None => undefined
  end.

(** One turn of [for (int i = 0; i < num_items; i++)] in [nex::load]. *)
Definition read_item (timestep : Z) (time : float) (max_perfs : Z)
    (classname : list byte) (varnames : list (list byte))
    (data : list NexusData) : M (list NexusData) :=
  seekg_curM 8 >>
  let* instancename := readM 8 (indeterminate E 8) in
  seekg_curM 64 >>
  read_vars data timestep time max_perfs classname instancename varnames.

Fixpoint read_items (n : nat) (timestep : Z) (time : float) (max_perfs : Z)
    (classname : list byte) (varnames : list (list byte))
    (data : list NexusData) : M (list NexusData) :=
  match n with
  | O => ret data
  | S n' =>
      let* data :=
        read_item timestep time max_perfs classname varnames data in
      read_items n' timestep time max_perfs classname varnames data
  end.

(** The body of [while (true)] after the test for the sentinel: one block.
    [varnames[classname]] on a name the map does not hold gives an empty
    vector. *)
Definition read_block (varnames : gmap (list byte) (list (list byte)))
    (classname : list byte) (data : list NexusData) : M (list NexusData) :=
  seekg_curM 8 >>
  let* mem := readM (5 * 4) (zeros (5 * 4)) in
  let* g := goodM in
  if negb g then throw UnexpectedEof else
  let buf := map ntoh_int32 (int32s_of_mem 5 mem) in
  let* timestep := cast_int32 (nth 0 buf 0%Z) in
  let time := interpret_float (nth 1 buf 0%Z) in
  let* num_items := cast_int32 (nth 2 buf 0%Z) in
  let* max_perfs := cast_int32 (nth 4 buf 0%Z) in
  let* data :=
    read_items (Z.to_nat num_items) timestep time max_perfs classname
               (default [] (varnames !! classname)) data in
  seekg_curM 8 >>
  ret data.

(** [while (true)], unrolled [fuel] times; [None] when the fuel runs out. *)
Fixpoint load_loop (fuel : nat)
    (varnames : gmap (list byte) (list (list byte)))
    (data : list NexusData) (s : istream)
  : option (outcome (list NexusData)) :=
  match fuel with
  | O => None
  | S fuel' =>
      match read_str 8 s with
      | Ok (classname, s) =>
          if bytes_eqb classname stop then Some (Ok data)
          else
            match read_block varnames classname data s with
            | Ok (data, s) => load_loop fuel' varnames data s
            | Throw e => Some (Throw e)
            | Undefined => Some Undefined
            end
      | Throw e => Some (Throw e)
      | Undefined => Some Undefined
      end
  end.

(** A block that is read in full moves the stream on by 20 bytes at least,
    so the loop ends within as many turns as the stream has bytes. *)
Definition load_fuel (s : istream) : nat := S (length (content s)).

(** [NexusPlot nex::load(std::istream&)] *)
Definition load (s : istream) : option (outcome NexusPlot) :=
  match read_header s with
  | Ok (header, s) =>
      match read_varnames (num_classes header) s with
      | Ok (varnames, s) =>
          match load_loop (load_fuel s) varnames [] s with
          | Some (Ok data) => Some (Ok {| header := header; data := data |})
          | Some (Throw e) => Some (Throw e)
          | Some Undefined => Some Undefined
          | None => None
          end
      | Throw e => Some (Throw e)
      | Undefined => Some Undefined
      end
  | Throw e => Some (Throw e)
  | Undefined => Some Undefined
  end.

End Decoder.

(** The big-endian [int32_t] values of a byte sequence. *)
Fixpoint be_int32s (n : nat) (m : list byte) : list Z :=
  match n with
  | O => []
  | S n' => to_int32 (be_uint32 (take 4 m)) :: be_int32s n' (drop 4 m)
  end.

Definition failed (s : istream) : Prop := failbit s = true.

Definition at_pos (s : istream) (p : nat) : Prop :=
  failbit s = false /\ eofbit s = false /\ pos s = p.

(** Every state the decoder passes through after its first seek: failed, or
    good at a known position. *)
Definition reach (s : istream) (p : nat) : Prop := failed s \/ at_pos s p.

(** The good stream over [bs] with the get position at [p]. *)
Definition state_at (bs : list byte) (pe : bool) (p : nat) : istream :=
  Istream bs p false false pe.

(** The fields of the header as they lie in the file. *)
Definition type_tag (bs : list byte) : list byte := take 12 (drop 4 bs).
Definition unit_tag (bs : list byte) : list byte := take 6 (drop 40 bs).
Definition header_words (bs : list byte) : list Z :=
  be_int32s 8 (take 32 (drop 840 bs)).

(** ** Sample data for the examples *)

Definition byte_of_Z (z : Z) : byte :=
  default "000"%byte (Byte.of_N (Z.to_N (z mod 256))).

(** The four bytes of a word, most significant first. *)
Definition be32 (z : Z) : list byte :=
  [byte_of_Z (z / 16777216); byte_of_Z (z / 65536); byte_of_Z (z / 256);
   byte_of_Z z].

(** [std::sort] done by insertion, equal keys kept in their order. *)
Fixpoint insert_by_timestep (d : NexusData) (l : list NexusData)
  : list NexusData :=
  match l with
  | [] => [d]
  | x :: l' =>
      if (timestep d <? timestep x)%Z then d :: l
      else x :: insert_by_timestep d l'
  end.

Definition insertion_sort (l : list NexusData) : list NexusData :=
  foldr insert_by_timestep [] l.

(** An environment for the examples.  Its choices are those of the
    examples only: uninitialised bytes read as question marks, the unit tag
    METBAR stands for metric-bars and no other tag is known, the class count
    is the first integer of the header. *)
Definition sample_env : Env := {|
  indeterminate := fun n => replicate n "?"%byte;
  UnitSystem_of_tag := fun us =>
    if bytes_eqb us (bytes_of "METBAR") then Ok metric_bars
    else Throw UnrecognizedUnitSystem;
  layout := {| ix_num_classes := 0; ix_day := 1; ix_month := 2; ix_year := 3;
               ix_nx := 4; ix_ny := 5; ix_nz := 6 |};
  measure_of_varname := fun code =>
    if bool_decide (code = "QOP"%string) then surface_rates_liquid
    else if bool_decide (code = "WCUT"%string) then water_cut
    else fraction;
  unit_str_other := fun _ _ => ""%string;
  std_sort := insertion_sort
|}.

(** A header: one class, 1 January 1980, a grid of one cell. *)
Definition sample_header : list byte :=
  zeros 4 ++ bytes_of "PLOT  BIN   " ++ zeros 24 ++ bytes_of "METBAR"
  ++ zeros 794 ++ concat (map be32 [1; 1; 1; 1980; 1; 1; 1; 1]%Z).

(** ** The layout of a record block *)

(** What remains to be read of the bytes [bs] from position [p] on. *)
Definition unread_is (bs : list byte) (p : nat) (r : list byte) : Prop :=
  p <= length bs /\ drop p bs = r.

(** One item of a block as it lies in the file: a separator, the instance
    name, an unused region and the value words. *)
Record item : Type := {
  item_sep : list byte;
  item_name : list byte;
  item_pad : list byte;
  item_words : list byte
}.

Definition item_bytes (it : item) : list byte :=
  item_sep it ++ item_name it ++ item_pad it ++ item_words it.

(** An item of a class of [n] variables: 8 + 8 + 64 + 4n bytes. *)
Definition item_ok (n : nat) (it : item) : Prop :=
  length (item_sep it) = 8 /\ length (item_name it) = 8
  /\ length (item_pad it) = 64 /\ length (item_words it) = n * 4.

Definition mk_sample (ts : Z) (t : float) (mp : Z) (c i : list byte)
    (v : list byte) (x : Z) : NexusData :=
  {| timestep := ts; time := t; max_perfs := mp; classname := c;
     instancename := i; varname := v; value := interpret_float x |}.

(** The samples of one item: one per variable code, in the order of the
    codes, the [k]-th with the [k]-th big-endian word reinterpreted. *)
Definition item_samples (ts : Z) (t : float) (mp : Z) (c : list byte)
    (vs : list (list byte)) (it : item) : list NexusData :=
  zip_with (mk_sample ts t mp c (item_name it)) vs
           (be_int32s (length vs) (item_words it)).

(** A catalog with the one class FIELD of two variable codes. *)
Definition sample_catalog : list byte :=
  zeros 8 ++ bytes_of "FIELD   " ++ zeros 8 ++ be32 2 ++ zeros 8
  ++ zeros 4 ++ bytes_of "QOP WCUT" ++ zeros 8.

Definition sample_varnames : gmap (list byte) (list (list byte)) :=
  {[ bytes_of "FIELD   " := [bytes_of "QOP "; bytes_of "WCUT"] ]}.

(** The block header for timestep 1, time 0.0, one item: the words are the
    bit patterns of the floats 1.0, 0.0, 1.0, 0.0, 0.0. *)
Definition sample_block_header : list byte :=
  concat (map be32 [1065353216; 0; 1065353216; 0; 0]%Z).

(** The item NETWORK with the values 12.5 and 0.3 (the binary32 nearest to
    it), bit patterns 0x41480000 and 0x3E99999A. *)
Definition sample_item : item := {|
  item_sep := zeros 8;
  item_name := bytes_of "NETWORK ";
  item_pad := zeros 64;
  item_words := be32 1095237632 ++ be32 1050253722
|}.

Definition sample_block : list byte :=
  bytes_of "FIELD   " ++ zeros 8 ++ sample_block_header
  ++ concat (map item_bytes [sample_item]) ++ zeros 8 ++ bytes_of "STOP    ".

Definition sample_data : list NexusData :=
  [ {| timestep := 1; time := Float 0; max_perfs := 0;
       classname := bytes_of "FIELD   ";
       instancename := bytes_of "NETWORK ";
       varname := bytes_of "QOP "; value := Float 1095237632 |};
    {| timestep := 1; time := Float 0; max_perfs := 0;
       classname := bytes_of "FIELD   ";
       instancename := bytes_of "NETWORK ";
       varname := bytes_of "WCUT"; value := Float 1050253722 |} ].

(** [s'] is a later state of the stream [s]: the same bytes, the get
    position not moved back, a failure not undone. *)
Definition le_stream (s s' : istream) : Prop :=
  content s' = content s /\ past_end_seek s' = past_end_seek s
  /\ pos s <= pos s' /\ (failbit s = true -> failbit s' = true).

(** The bytes of a stream that lie before its end and after the get
    position. *)
Definition remaining (s : istream) : nat := length (content s) - pos s.

(** ** Streams that end before the sentinel *)

(** The three casts of a block header succeed, giving the timestep, the
    item count and the max-perforation count. *)
Definition header_casts (hdr : list byte) (ts ni mp : Z) : Prop :=
  float_to_int32 (interpret_float (nth 0 (be_int32s 5 hdr) 0%Z)) = Some ts
  /\ float_to_int32 (interpret_float (nth 2 (be_int32s 5 hdr) 0%Z)) = Some ni
  /\ float_to_int32 (interpret_float (nth 4 (be_int32s 5 hdr) 0%Z)) = Some mp.

(** The bytes of a block that is all there: the class name (not the
    sentinel), a separator, the header, as many items as the header
    announces, each as wide as the catalog says for the class (a class the
    catalog does not hold has no variables), and the closing separator. *)
Inductive complete_block (vn : gmap (list byte) (list (list byte)))
  : list byte -> Prop :=
  | complete_block_intro c sep0 hdr its sep1 ts ni mp :
      length c = 8 -> c <> stop ->
      length sep0 = 8 -> length hdr = 20 -> length sep1 = 8 ->
      header_casts hdr ts ni mp -> Z.to_nat ni = length its ->
      Forall (item_ok (length (default [] (vn !! c)))) its ->
      complete_block vn
        (c ++ sep0 ++ hdr ++ concat (map item_bytes its) ++ sep1).

(** The stream ends inside a block or inside the token that opens it: there
    are fewer than 8 bytes; or a class name that is not the sentinel and
    then fewer bytes than the separator and header take (36 with the name);
    or a name and a header, and fewer bytes than the items the header
    announces and the closing separator take. *)
Definition cut_short (vn : gmap (list byte) (list (list byte)))
    (tail : list byte) : Prop :=
  length tail < 8
  \/ (8 <= length tail /\ take 8 tail <> stop
      /\ (length tail < 36
          \/ exists ts ni mp,
               header_casts (take 20 (drop 16 tail)) ts ni mp
               /\ length tail
                  < 36 + Z.to_nat ni
                         * (8 + 8 + 64
                            + length (default [] (vn !! take 8 tail)) * 4)
                    + 8)).

(** A stream truncated before a sentinel is reached: blocks that are all
    there, then bytes that are cut short. *)
Inductive truncated (vn : gmap (list byte) (list (list byte)))
  : list byte -> Prop :=
  | truncated_here tail : cut_short vn tail -> truncated vn tail
  | truncated_after blk rest :
      complete_block vn blk -> truncated vn rest -> truncated vn (blk ++ rest).

(** The last byte of an uninitialised 8-byte buffer is not a space, so that
    bytes left over in the buffer never complete a sentinel. *)
Definition junk_not_sentinel (E : Env) : Prop :=
  indeterminate E 8 !! 7 <> Some space.

Definition sample_nexus_header : NexusHeader :=
  {| unit_system := metric_bars;
     header_ints := [1; 1; 1; 1980; 1; 1; 1; 1]%Z |}.

(** Header and catalog, then the sentinel at once. *)
Definition sample_empty_file : list byte :=
  sample_header ++ sample_catalog ++ bytes_of "STOP    ".

(** Header and catalog, then a stream that ends inside the sentinel. *)
Definition sample_cut_file : list byte :=
  sample_header ++ sample_catalog ++ bytes_of "STOP".

(** The whole sample file: header, catalog, one block, the sentinel. *)
Definition sample_file : list byte :=
  sample_header ++ sample_catalog ++ sample_block.

(** An item of a class without variables. *)
Definition sample_bare_item : item := {|
  item_sep := zeros 8;
  item_name := bytes_of "PROD1   ";
  item_pad := zeros 64;
  item_words := []
|}.

(** A block of the class WELL, which the sample catalog does not hold, and
    the sentinel. *)
Definition sample_unknown_block : list byte :=
  bytes_of "WELL    " ++ zeros 8 ++ sample_block_header
  ++ concat (map item_bytes [sample_bare_item]) ++ zeros 8
  ++ bytes_of "STOP    ".

Definition sample_unknown_class_file : list byte :=
  sample_header ++ sample_catalog ++ sample_unknown_block.

(** ** The layout of the variable catalog *)

(** One class of the catalog as the decoder reads it: its name (in the
    name section), and in the variable section a 4-byte time variable name,
    the 4-byte variable codes and an 8-byte separator. *)
Record class_entry : Type := {
  ce_name : list byte;
  ce_time : list byte;
  ce_codes : list (list byte);
  ce_sep : list byte
}.

Definition class_ok (ce : class_entry) : Prop :=
  length (ce_name ce) = 8 /\ length (ce_time ce) = 4
  /\ Forall (fun v => length v = 4) (ce_codes ce)
  /\ length (ce_sep ce) = 8
  /\ (Z.of_nat (length (ce_codes ce)) * 4 <= INT_MAX)%Z.

Definition class_bytes (ce : class_entry) : list byte :=
  ce_time ce ++ concat (ce_codes ce) ++ ce_sep ce.

Definition class_count (ce : class_entry) : Z :=
  Z.of_nat (length (ce_codes ce)).

(** The catalog the decoder builds: the classes are entered in order, a
    name that comes again replaces the earlier entry. *)
Definition catalog_of (cls : list class_entry)
  : gmap (list byte) (list (list byte)) :=
  foldl (fun m ce => <[ce_name ce := ce_codes ce]> m) ∅ cls.

(** A catalog of two classes, FIELD with the code QOP and WELL with the
    code QWP, laid out the way the decoder reads it. *)
Definition sample_two_classes : list byte :=
  zeros 8 ++ bytes_of "FIELD   " ++ bytes_of "WELL    "
  ++ zeros 8 ++ be32 1 ++ be32 1 ++ zeros 8
  ++ bytes_of "TIME" ++ bytes_of "QOP " ++ zeros 8
  ++ bytes_of "TIME" ++ bytes_of "QWP " ++ zeros 8.

Definition sample_two_catalog : gmap (list byte) (list (list byte)) :=
  {[ bytes_of "FIELD   " := [bytes_of "QOP "];
     bytes_of "WELL    " := [bytes_of "QWP "] ]}.

Definition sample_class_entries : list class_entry :=
  [ {| ce_name := bytes_of "FIELD   "; ce_time := bytes_of "TIME";
       ce_codes := [bytes_of "QOP "]; ce_sep := zeros 8 |};
    {| ce_name := bytes_of "WELL    "; ce_time := bytes_of "TIME";
       ce_codes := [bytes_of "QWP "]; ce_sep := zeros 8 |} ].

(** A sample of a class of the catalog, under one of the codes the catalog
    lists for the class. *)
Definition sample_in_catalog (vn : gmap (list byte) (list (list byte)))
    (d : NexusData) : Prop :=
  classname d <> stop
  /\ exists vs, vn !! classname d = Some vs /\ varname d ∈ vs.

(** ** The layout of the record stream *)

(** One block as it lies in the file. *)
Record block : Type := {
  b_class : list byte;
  b_sep0 : list byte;
  b_hdr : list byte;
  b_items : list item;
  b_sep1 : list byte
}.

Definition block_bytes (b : block) : list byte :=
  b_class b ++ b_sep0 b ++ b_hdr b ++ concat (map item_bytes (b_items b))
  ++ b_sep1 b.

(** The [k]-th header word of a block, reinterpreted and cast. *)
Definition block_int (b : block) (k : nat) : option Z :=
  float_to_int32 (interpret_float (nth k (be_int32s 5 (b_hdr b)) 0%Z)).

Definition block_time (b : block) : float :=
  interpret_float (nth 1 (be_int32s 5 (b_hdr b)) 0%Z).

(** A block that is all there, for the catalog [vn]. *)
Definition block_ok (vn : gmap (list byte) (list (list byte))) (b : block)
  : Prop :=
  length (b_class b) = 8 /\ b_class b <> stop
  /\ length (b_sep0 b) = 8 /\ length (b_hdr b) = 20 /\ length (b_sep1 b) = 8
  /\ is_Some (block_int b 0) /\ is_Some (block_int b 4)
  /\ (exists ni, block_int b 2 = Some ni /\ Z.to_nat ni = length (b_items b))
  /\ Forall (item_ok (length (default [] (vn !! b_class b)))) (b_items b).

(** The samples of a block. *)
Definition block_samples (vn : gmap (list byte) (list (list byte)))
    (b : block) : list NexusData :=
  concat (map (item_samples (default 0%Z (block_int b 0)) (block_time b)
                 (default 0%Z (block_int b 4)) (b_class b)
                 (default [] (vn !! b_class b)))
              (b_items b)).

Definition sample_block_record : block := {|
  b_class := bytes_of "FIELD   ";
  b_sep0 := zeros 8;
  b_hdr := sample_block_header;
  b_items := [sample_item];
  b_sep1 := zeros 8
|}.

(** * Properties *)

(** ** Words *)

Lemma byte_val_range (b : byte) : (0 <= byte_val b < 256)%Z.
Proof. destruct b; vm_compute; split; congruence. Qed.

Lemma land_shiftl_low (a b n : Z) :
  (0 <= n)%Z -> (0 <= a < 2 ^ n)%Z -> Z.land (Z.shiftl b n) a = 0%Z.
Proof.
  intros Hn Ha. apply Z.bits_inj'; intros i Hi.
  rewrite Z.land_spec, Z.bits_0.
  destruct (Z.lt_ge_cases i n) as [Hlt | Hge].
  - rewrite Z.shiftl_spec_low by trivial. reflexivity.
  - rewrite <- (Z.mod_small a (2 ^ n)) by lia.
    rewrite Z.mod_pow2_bits_high by lia. apply andb_false_r.
Qed.

Lemma lor_shiftl_add (a b n : Z) :
  (0 <= n)%Z -> (0 <= a < 2 ^ n)%Z ->
  Z.lor (Z.shiftl b n) a = (b * 2 ^ n + a)%Z.
Proof.
  intros Hn Ha.
  rewrite <- Z.lxor_lor by (apply land_shiftl_low; trivial).
  rewrite <- Z.add_nocarry_lxor by (apply land_shiftl_low; trivial).
  rewrite Z.shiftl_mul_pow2 by trivial. reflexivity.
Qed.

Lemma land_shiftr_byte (u k : Z) :
  (0 <= k)%Z -> Z.land (Z.shiftr u k) 255 = ((u / 2 ^ k) mod 256)%Z.
Proof.
  intros Hk. rewrite Z.shiftr_div_pow2 by trivial.
  change 255%Z with (Z.ones 8). rewrite Z.land_ones by lia. reflexivity.
Qed.

(** Swapping the word the little-endian host holds gives the big-endian
    reading of the four bytes. *)
Lemma ntoh_uint32_of_mem (b0 b1 b2 b3 : byte) :
  ntoh (uint32_of_mem [b0; b1; b2; b3]) = be_uint32 [b0; b1; b2; b3].
Proof.
  unfold ntoh, ntohl, uint32_of_mem, be_uint32.
  pose proof (byte_val_range b0). pose proof (byte_val_range b1).
  pose proof (byte_val_range b2). pose proof (byte_val_range b3).
  set (x0 := byte_val b0) in *. set (x1 := byte_val b1) in *.
  set (x2 := byte_val b2) in *. set (x3 := byte_val b3) in *.
  set (u := (x0 + 256 * x1 + 65536 * x2 + 16777216 * x3)%Z).
  assert (E0 : Z.land u 255 = x0).
  { change 255%Z with (Z.ones 8). rewrite Z.land_ones by lia.
    subst u. change (2 ^ 8)%Z with 256%Z.
    replace (x0 + 256 * x1 + 65536 * x2 + 16777216 * x3)%Z
      with (x0 + (x1 + 256 * x2 + 65536 * x3) * 256)%Z by ring.
    rewrite Z.mod_add by lia. apply Z.mod_small; lia. }
  assert (E1 : Z.land (Z.shiftr u 8) 255 = x1).
  { rewrite land_shiftr_byte by lia. subst u. change (2 ^ 8)%Z with 256%Z.
    replace (x0 + 256 * x1 + 65536 * x2 + 16777216 * x3)%Z
      with (x0 + (x1 + 256 * x2 + 65536 * x3) * 256)%Z by ring.
    rewrite Z.div_add by lia. rewrite (Z.div_small x0) by lia.
    replace (0 + (x1 + 256 * x2 + 65536 * x3))%Z
      with (x1 + (x2 + 256 * x3) * 256)%Z by ring.
    rewrite Z.mod_add by lia. apply Z.mod_small; lia. }
  assert (E2 : Z.land (Z.shiftr u 16) 255 = x2).
  { rewrite land_shiftr_byte by lia. subst u. change (2 ^ 16)%Z with 65536%Z.
    replace (x0 + 256 * x1 + 65536 * x2 + 16777216 * x3)%Z
      with ((x0 + 256 * x1) + (x2 + 256 * x3) * 65536)%Z by ring.
    rewrite Z.div_add by lia. rewrite (Z.div_small (x0 + 256 * x1)) by lia.
    replace (0 + (x2 + 256 * x3))%Z with (x2 + x3 * 256)%Z by ring.
    rewrite Z.mod_add by lia. apply Z.mod_small; lia. }
  assert (E3 : Z.land (Z.shiftr u 24) 255 = x3).
  { rewrite land_shiftr_byte by lia. subst u.
    change (2 ^ 24)%Z with 16777216%Z.
    replace (x0 + 256 * x1 + 65536 * x2 + 16777216 * x3)%Z
      with ((x0 + 256 * x1 + 65536 * x2) + x3 * 16777216)%Z by ring.
    rewrite Z.div_add by lia.
    rewrite (Z.div_small (x0 + 256 * x1 + 65536 * x2)) by lia.
    apply Z.mod_small; lia. }
  rewrite E0, E1, E2, E3.
  rewrite (lor_shiftl_add x3 x2 8) by (change (2 ^ 8)%Z with 256%Z; lia).
  change (2 ^ 8)%Z with 256%Z.
  rewrite (lor_shiftl_add _ x1 16) by (change (2 ^ 16)%Z with 65536%Z; lia).
  change (2 ^ 16)%Z with 65536%Z.
  rewrite (lor_shiftl_add _ x0 24)
    by (change (2 ^ 24)%Z with 16777216%Z; lia).
  change (2 ^ 24)%Z with 16777216%Z. ring.
Qed.

Lemma to_uint32_to_int32 (u : Z) :
  (0 <= u < two32)%Z -> to_uint32 (to_int32 u) = u.
Proof.
  intros Hu. unfold to_uint32, to_int32, two32, INT_MAX in *.
  rewrite (Z.mod_small u) by lia.
  destruct (Z.leb_spec u 2147483647).
  - apply Z.mod_small; lia.
  - replace (u - 4294967296)%Z with (u + (-1) * 4294967296)%Z by ring.
    rewrite Z.mod_add by lia. apply Z.mod_small; lia.
Qed.

Lemma to_int32_range (u : Z) : (INT_MIN <= to_int32 u <= INT_MAX)%Z.
Proof.
  unfold to_int32, two32, INT_MIN, INT_MAX.
  pose proof (Z.mod_pos_bound u 4294967296 ltac:(lia)).
  destruct (Z.leb_spec (u mod 4294967296) 2147483647); lia.
Qed.

Lemma uint32_of_mem_range (m : list byte) : (0 <= uint32_of_mem m < two32)%Z.
Proof.
  unfold uint32_of_mem, two32.
  destruct m as [|b0 [|b1 [|b2 [|b3 [|]]]]]; try lia.
  pose proof (byte_val_range b0). pose proof (byte_val_range b1).
  pose proof (byte_val_range b2). pose proof (byte_val_range b3). lia.
Qed.

Lemma ntoh_int32_of_mem (m : list byte) :
  ntoh_int32 (to_int32 (uint32_of_mem m)) = to_int32 (be_uint32 m).
Proof.
  unfold ntoh_int32.
  rewrite to_uint32_to_int32 by apply uint32_of_mem_range.
  destruct m as [|b0 [|b1 [|b2 [|b3 [|]]]]]; try reflexivity.
  rewrite ntoh_uint32_of_mem. reflexivity.
Qed.

(** What the code does to a buffer of integers, read raw and swapped in
    place, is the big-endian reading of the bytes. *)
Lemma ntoh_int32s_of_mem (n : nat) (m : list byte) :
  map ntoh_int32 (int32s_of_mem n m) = be_int32s n m.
Proof.
  revert m. induction n as [|n IH]; intros m; simpl; [reflexivity |].
  rewrite ntoh_int32_of_mem, IH. reflexivity.
Qed.

Lemma length_be_int32s (n : nat) (m : list byte) : length (be_int32s n m) = n.
Proof. revert m. induction n; intros; simpl; auto. Qed.

(** ** Floats *)

Example float_val_12_5 :
  float_val (Float 1095237632) = S754_finite false 13107200 (-20).
Proof. reflexivity. Qed.

Example float_to_int32_1 : float_to_int32 (Float 1065353216) = Some 1%Z.
Proof. reflexivity. Qed.

Example float_to_int32_m2_7 : float_to_int32 (Float 3224161485) = Some (-2)%Z.
Proof. reflexivity. Qed.

Example float_to_int32_big : float_to_int32 (Float 1333788672) = None.
Proof. reflexivity. Qed.


(** [SFtrunc] rounds towards zero: for a positive float [m * 2^e] with
    [e < 0] the result [a] satisfies [a <= m * 2^e < a + 1], stated without
    division. *)
Lemma SFtrunc_towards_zero (s : bool) (m : positive) (e a : Z) :
  SFtrunc (S754_finite s m e) = Some a ->
  if (0 <=? e)%Z then Z.abs a = (Zpos m * 2 ^ e)%Z
  else (Z.abs a * 2 ^ (- e) <= Zpos m < (Z.abs a + 1) * 2 ^ (- e))%Z.
Proof.
  unfold SFtrunc. intros [= <-].
  destruct (Z.leb_spec 0 e) as [He | He].
  - assert (0 <= Zpos m * 2 ^ e)%Z by (apply Z.mul_nonneg_nonneg; lia).
    destruct s; lia.
  - assert (Hp : (0 < 2 ^ (- e))%Z) by (apply Z.pow_pos_nonneg; lia).
    pose proof (Z.div_pos (Zpos m) _ ltac:(lia) Hp) as Hq.
    pose proof (Z.mul_div_le (Zpos m) _ Hp) as Hlo.
    pose proof (Z.mul_succ_div_gt (Zpos m) _ Hp) as Hhi.
    assert (Ha : Z.abs (if s then - (Zpos m / 2 ^ (- e)) else Zpos m / 2 ^ (- e))
                 = (Zpos m / 2 ^ (- e))%Z) by (destruct s; lia).
    rewrite Ha. lia.
Qed.

(** Reinterpretation is not conversion: the word 0x41480000 is the float
    12.5 = 13107200 * 2^-20, whereas the conversion of the integer would be
    a float near 1.1e9. *)
Example interpret_float_is_bitwise :
  float_val (interpret_float 1095237632) = S754_finite false 13107200 (-20)
  /\ float_to_int32 (interpret_float 1095237632) = Some 12%Z.
Proof. split; reflexivity. Qed.

(** ** The stream primitives *)

Lemma good_at_pos s p : at_pos s p -> good s = true.
Proof. intros (Hf & He & _). unfold good. rewrite Hf, He. reflexivity. Qed.

Lemma good_failed s : failed s -> good s = false.
Proof. unfold failed, good. intros ->. apply andb_false_r. Qed.

Lemma good_reach s p : reach s p -> good s = negb (failbit s).
Proof.
  intros [H | H].
  - rewrite (good_failed _ H). rewrite H. reflexivity.
  - rewrite (good_at_pos _ _ H). destruct H as (-> & _). reflexivity.
Qed.

Lemma content_seek_to p s : content (seek_to p s) = content s.
Proof. unfold seek_to. simpl. repeat case_match; reflexivity. Qed.

Lemma content_read n buf s : content (read n buf s).2 = content s.
Proof. unfold read. repeat case_match; reflexivity. Qed.

Lemma seek_to_failed p s : failed s -> failed (seek_to p s).
Proof. destruct s; unfold failed, seek_to; simpl. intros ->. reflexivity. Qed.

Lemma seek_to_reach p s : reach (seek_to p s) p.
Proof.
  destruct s as [c p0 e f pe]. unfold reach, failed, at_pos, seek_to. simpl.
  destruct f; simpl; [left; reflexivity |].
  case_match; simpl; auto.
Qed.

Lemma seek_to_at p' s p :
  at_pos s p -> p' <= length (content s) -> at_pos (seek_to p' s) p'.
Proof.
  destruct s as [c p0 e f pe]. unfold at_pos, seek_to. simpl.
  intros (-> & He & Hp) Hle. simpl.
  apply Nat.leb_le in Hle. rewrite Hle. simpl. auto.
Qed.

Lemma seekg_cur_reach n s p : reach s p -> reach (seekg_cur n s) (p + n).
Proof.
  intros [H | H].
  - left. apply seek_to_failed, H.
  - unfold seekg_cur. destruct H as (Hf & He & <-). apply seek_to_reach.
Qed.

Lemma seekg_cur_at n s p :
  at_pos s p -> p + n <= length (content s) -> at_pos (seekg_cur n s) (p + n).
Proof.
  intros H Hle. unfold seekg_cur. pose proof H as (_ & _ & Hp). rewrite Hp.
  eapply seek_to_at; eauto.
Qed.

Lemma read_failed n buf s :
  failed s -> read n buf s = (take n buf, set_fail s).
Proof. intros H. unfold read. rewrite (good_failed _ H). reflexivity. Qed.

Lemma read_full n buf s p :
  at_pos s p -> n <= length (content s) - p ->
  read n buf s = (take n (drop p (content s)), set_pos (p + n) s).
Proof.
  intros H Hle. unfold read. rewrite (good_at_pos _ _ H).
  destruct H as (Hf & He & <-).
  assert (Hlen : length (take n (drop (pos s) (content s))) = n)
    by (rewrite length_take, length_drop; lia).
  rewrite Hlen, Nat.eqb_refl. f_equal.
  rewrite take_app_le by lia. apply take_ge. lia.
Qed.

Lemma read_full_at n buf s p :
  at_pos s p -> n <= length (content s) - p ->
  at_pos (read n buf s).2 (p + n).
Proof.
  intros H Hle. rewrite (read_full _ _ _ _ H Hle). simpl.
  destruct H as (Hf & He & Hp). unfold at_pos. simpl. auto.
Qed.

Lemma read_short n buf s p :
  at_pos s p -> length (content s) - p < n -> failed (read n buf s).2.
Proof.
  intros H Hlt. unfold read. rewrite (good_at_pos _ _ H).
  destruct H as (Hf & He & <-). simpl.
  assert (Hlen : length (take n (drop (pos s) (content s))) <> n)
    by (rewrite length_take, length_drop; lia).
  apply Nat.eqb_neq in Hlen. rewrite Hlen. reflexivity.
Qed.

Lemma read_reach n buf s p : reach s p -> reach (read n buf s).2 (p + n).
Proof.
  intros [H | H].
  - left. rewrite (read_failed _ _ _ H). reflexivity.
  - destruct (le_lt_dec n (length (content s) - p)).
    + right. apply read_full_at; trivial.
    + left. eapply read_short; eauto.
Qed.

(** A stream that has failed stays failed; the decoder never clears
    [failbit]. *)
Lemma read_keeps_failed n buf s : failed s -> failed (read n buf s).2.
Proof. intros H. rewrite (read_failed _ _ _ H). reflexivity. Qed.

(** A read that leaves the stream good has found all its bytes. *)
Lemma read_good_inv n buf s p :
  reach s p -> failbit (read n buf s).2 = false ->
  at_pos s p /\ n <= length (content s) - p.
Proof.
  intros [H | H] Hg.
  - rewrite (read_keeps_failed _ _ _ H) in Hg. discriminate.
  - split; trivial. destruct (le_lt_dec n (length (content s) - p)); trivial.
    rewrite (read_short _ _ _ _ H) in Hg by trivial. discriminate.
Qed.

Lemma at_pos_state_at s p :
  at_pos s p <-> s = state_at (content s) (past_end_seek s) p.
Proof.
  destruct s as [c p0 e f pe]. unfold at_pos, state_at. simpl. split.
  - intros (-> & -> & ->). reflexivity.
  - intros [= -> -> ->]. auto.
Qed.

Lemma state_at_at_pos bs pe p : at_pos (state_at bs pe p) p.
Proof. unfold at_pos. simpl. auto. Qed.

Lemma seek_to_state_at bs pe p p' :
  p' <= length bs -> seek_to p' (state_at bs pe p) = state_at bs pe p'.
Proof.
  intros H. unfold seek_to, state_at. simpl.
  apply Nat.leb_le in H. rewrite H. reflexivity.
Qed.

Lemma seekg_cur_state_at bs pe p n :
  p + n <= length bs ->
  seekg_cur n (state_at bs pe p) = state_at bs pe (p + n).
Proof. intros H. unfold seekg_cur. simpl. apply seek_to_state_at, H. Qed.

Lemma read_state_at n buf bs pe p :
  p + n <= length bs ->
  read n buf (state_at bs pe p)
  = (take n (drop p bs), state_at bs pe (p + n)).
Proof.
  intros H.
  rewrite (read_full n buf _ p) by (try apply state_at_at_pos; simpl; lia).
  reflexivity.
Qed.

Lemma seekg_beg_fresh s p' :
  failbit s = false -> p' <= length (content s) ->
  seekg_beg p' s = state_at (content s) (past_end_seek s) p'.
Proof.
  destruct s as [c p0 e f pe]. simpl. intros -> H.
  unfold seekg_beg, seek_to, state_at. simpl.
  apply Nat.leb_le in H. rewrite H. reflexivity.
Qed.

(** ** The header decoder *)

Section HeaderDecoder.

Variable E : Env.
Variable s : istream.

Let s1 := seekg_beg 4 s.
Let r2 := read 12 (indeterminate E 12) s1.
Let s3 := seekg_cur 6 (seekg_cur 6 (seekg_cur 6 (seekg_cur 6 r2.2))).
Let r4 := read 6 (indeterminate E 6) s3.
Let s5 := seekg_cur (530 + 264) r4.2.
Let r6 := read (8 * 4) (zeros (8 * 4)) s5.

Lemma read_header_unfold :
  read_header E s =
  if negb (bytes_eqb r2.1 th0) || negb (good r2.2) then Throw BadHeader
  else if negb (good r4.2) then Throw UnexpectedEof
  else match UnitSystem_of_tag E r4.1 with
       | Ok u =>
           if negb (good r6.2) then Throw UnexpectedEof
           else
             let buf := be_int32s 8 r6.1 in
             if existsb negative buf then Throw BadHeader
             else Ok ({| unit_system := u; header_ints := buf |}, r6.2)
       | Throw e => Throw e
       | Undefined => Undefined
       end.
Proof.
  unfold read_header, bind, seekg_begM, seekg_curM, read_str, readM, goodM,
    lift, throw, ret.
  fold s1. destruct (read 12 (indeterminate E 12) s1) as [th1 s2] eqn:H2.
  subst r2. cbn [fst snd] in *.
  destruct (negb (bytes_eqb th1 th0) || negb (good s2)); [reflexivity |].
  cbv beta. fold s3.
  destruct (read 6 (indeterminate E 6) s3) as [us s4] eqn:H4.
  subst r4. cbn [fst snd] in *.
  destruct (negb (good s4)); [reflexivity |].
  destruct (UnitSystem_of_tag E us); try reflexivity.
  fold s5. fold r6. destruct r6 as [mem s6]. cbn [fst snd].
  destruct (negb (good s6)); [reflexivity |].
  rewrite ntoh_int32s_of_mem.
  destruct (existsb negative (be_int32s 8 mem)); reflexivity.
Qed.

Lemma reach_s1 : reach s1 4.
Proof. apply seek_to_reach. Qed.

Lemma reach_r2 : reach r2.2 16.
Proof. apply (read_reach 12 _ _ 4), reach_s1. Qed.

Lemma reach_s3 : reach s3 40.
Proof.
  change 40 with (16 + 6 + 6 + 6 + 6).
  repeat apply seekg_cur_reach. apply reach_r2.
Qed.

Lemma reach_r4 : reach r4.2 46.
Proof. apply (read_reach 6 _ _ 40), reach_s3. Qed.

Lemma reach_s5 : reach s5 840.
Proof. apply (seekg_cur_reach 794 _ 46), reach_r4. Qed.

Lemma reach_r6 : reach r6.2 872.
Proof. apply (read_reach 32 _ _ 840), reach_s5. Qed.

Lemma content_s1 : content s1 = content s.
Proof. apply content_seek_to. Qed.

(** The type tag is wrong, or the stream ends before it: [BadHeader]. *)
Lemma read_header_bad_tag :
  length (content s) < 16 \/ type_tag (content s) <> th0 ->
  read_header E s = Throw BadHeader.
Proof.
  intros Hbad. rewrite read_header_unfold.
  destruct (failbit r2.2) eqn:Hf.
  - rewrite (good_failed r2.2 Hf), orb_true_r. reflexivity.
  - destruct (read_good_inv 12 _ _ 4 reach_s1 Hf) as [Hat Hlen].
    rewrite content_s1 in Hlen.
    subst r2. rewrite (read_full 12 _ _ 4 Hat) in * by (rewrite content_s1; lia).
    simpl. rewrite content_s1. fold (type_tag (content s)).
    destruct Hbad as [Hshort | Hne]; [lia |].
    unfold bytes_eqb. rewrite bool_decide_eq_false_2 by exact Hne.
    reflexivity.
Qed.

Hypothesis fresh : failbit s = false.
Hypothesis tag_ok : type_tag (content s) = th0.

Let bs := content s.
Let pe := past_end_seek s.

Lemma length_ge_16 : 16 <= length bs.
Proof.
  pose proof (f_equal length tag_ok) as H. unfold type_tag in H.
  rewrite length_take, length_drop in H. change (length th0) with 12 in H.
  subst bs. lia.
Qed.

Lemma r2_tag_ok : r2 = (th0, state_at bs pe 16).
Proof.
  pose proof length_ge_16. subst r2 s1.
  rewrite seekg_beg_fresh by (trivial; fold bs; lia).
  fold bs pe. rewrite read_state_at by lia.
  fold (type_tag bs). subst bs. rewrite tag_ok. reflexivity.
Qed.

Lemma read_header_past_tag :
  read_header E s =
  if negb (good r4.2) then Throw UnexpectedEof
  else match UnitSystem_of_tag E r4.1 with
       | Ok u =>
           if negb (good r6.2) then Throw UnexpectedEof
           else
             let buf := be_int32s 8 r6.1 in
             if existsb negative buf then Throw BadHeader
             else Ok ({| unit_system := u; header_ints := buf |}, r6.2)
       | Throw e => Throw e
       | Undefined => Undefined
       end.
Proof.
  rewrite read_header_unfold. fold r2 r4 r6. rewrite r2_tag_ok.
  cbn [fst snd]. unfold bytes_eqb. rewrite bool_decide_eq_true_2 by reflexivity.
  reflexivity.
Qed.

Lemma content_s3 : content s3 = bs.
Proof.
  subst s3. rewrite r2_tag_ok. cbn [snd]. unfold seekg_cur.
  rewrite !content_seek_to. reflexivity.
Qed.

(** The stream ends before the unit-system tag is complete. *)
Lemma read_header_short_unit :
  length bs < 46 -> read_header E s = Throw UnexpectedEof.
Proof.
  intros Hlen. rewrite read_header_past_tag.
  destruct (failbit r4.2) eqn:Hf.
  - rewrite (good_failed _ Hf). reflexivity.
  - destruct (read_good_inv 6 _ _ 40 reach_s3 Hf) as [_ Hle].
    rewrite content_s3 in Hle. lia.
Qed.

Hypothesis unit_there : 46 <= length bs.

Lemma r4_unit_there : r4 = (unit_tag bs, state_at bs pe 46).
Proof.
  subst r4 s3. rewrite r2_tag_ok. cbn [snd].
  rewrite !seekg_cur_state_at by (simpl; lia). simpl Nat.add.
  rewrite read_state_at by lia. reflexivity.
Qed.

Variable u : UnitType.
Hypothesis unit_ok : UnitSystem_of_tag E (unit_tag bs) = Ok u.

Lemma read_header_past_unit :
  read_header E s =
  if negb (good r6.2) then Throw UnexpectedEof
  else
    let buf := be_int32s 8 r6.1 in
    if existsb negative buf then Throw BadHeader
    else Ok ({| unit_system := u; header_ints := buf |}, r6.2).
Proof.
  rewrite read_header_past_tag. rewrite r4_unit_there. cbn [fst snd].
  rewrite unit_ok. reflexivity.
Qed.

Lemma content_s5 : content s5 = bs.
Proof.
  subst s5. rewrite r4_unit_there. cbn [snd]. unfold seekg_cur.
  rewrite content_seek_to. reflexivity.
Qed.

(** The stream ends before the eight integers are complete. *)
Lemma read_header_short_ints :
  length bs < 872 -> read_header E s = Throw UnexpectedEof.
Proof.
  intros Hlen. rewrite read_header_past_unit.
  destruct (failbit r6.2) eqn:Hf.
  - rewrite (good_failed _ Hf). reflexivity.
  - destruct (read_good_inv 32 _ _ 840 reach_s5 Hf) as [_ Hle].
    rewrite content_s5 in Hle. lia.
Qed.

Hypothesis ints_there : 872 <= length bs.

Lemma r6_ints_there : r6 = (take 32 (drop 840 bs), state_at bs pe 872).
Proof.
  subst r6 s5. rewrite r4_unit_there. cbn [snd].
  rewrite seekg_cur_state_at by (simpl; lia). simpl Nat.add.
  change (8 * 4) with 32. rewrite read_state_at by lia. reflexivity.
Qed.

Lemma read_header_complete :
  read_header E s =
  if existsb negative (header_words bs) then Throw BadHeader
  else Ok ({| unit_system := u; header_ints := header_words bs |},
           state_at bs pe 872).
Proof.
  rewrite read_header_past_unit. rewrite r6_ints_there. cbn [fst snd].
  reflexivity.
Qed.

End HeaderDecoder.

Lemma existsb_negative_Exists (l : list Z) :
  existsb negative l = true <-> Exists (fun x => (x < 0)%Z) l.
Proof.
  induction l as [|x l IH]; simpl.
  - rewrite Exists_nil. split; [discriminate | tauto].
  - rewrite Exists_cons, orb_true_iff, IH. unfold negative.
    rewrite Z.ltb_lt. reflexivity.
Qed.

Lemma existsb_negative_Forall (l : list Z) :
  existsb negative l = false <-> Forall (fun x => (0 <= x)%Z) l.
Proof.
  rewrite <- not_true_iff_false, existsb_negative_Exists.
  rewrite <- Forall_Exists_neg. apply Forall_iff. intros x. lia.
Qed.

(** Whatever header the decoder returns holds eight integers, none
    negative. *)
Lemma read_header_Ok_nonneg E s h s' :
  read_header E s = Ok (h, s') ->
  length (header_ints h) = 8 /\ Forall (fun x => (0 <= x)%Z) (header_ints h).
Proof.
  rewrite read_header_unfold. intros H.
  repeat match type of H with
         | (if ?c then _ else _) = _ => destruct c eqn:?; try discriminate
         | match ?c with _ => _ end = _ => destruct c eqn:?; try discriminate
         end.
  cbv zeta in H.
  destruct (existsb negative _) eqn:Hneg in H; [discriminate |].
  apply existsb_negative_Forall in Hneg.
  pose proof (length_be_int32s 8 (read (8 * 4) (zeros (8 * 4))
    (seekg_cur (530 + 264) (read 6 (indeterminate E 6) (seekg_cur 6
      (seekg_cur 6 (seekg_cur 6 (seekg_cur 6 (read 12 (indeterminate E 12)
        (seekg_beg 4 s)).2))))).2)).1) as Hlen.
  set (buf := be_int32s 8 _) in *. clearbody buf.
  injection H as <- <-. cbn [header_ints]. auto.
Qed.

(** C4.  The header decoder, on a stream that has not failed before the
    call.  It fails with [BadHeader] when the twelve bytes after the 4-byte
    prefix are not the tag "PLOT  BIN   ", which covers a stream that ends
    before byte 16.  With the tag in place it fails with [UnexpectedEof]
    when the stream ends before the unit-system tag (byte 46) and, the unit
    system once constructed, when it ends before the eight integers are
    complete (byte 872); it fails with [BadHeader] when one of the eight
    big-endian integers is negative; otherwise it returns the header made of
    these integers.  Every header it returns holds eight integers, none
    negative. *)
Theorem read_header_outcomes (E : Env) (s : istream) :
  failbit s = false ->
  let bs := content s in
  (length bs < 16 \/ type_tag bs <> th0 -> read_header E s = Throw BadHeader)
  /\ (type_tag bs = th0 ->
      (length bs < 46 -> read_header E s = Throw UnexpectedEof)
      /\ (forall u,
            46 <= length bs -> UnitSystem_of_tag E (unit_tag bs) = Ok u ->
            (length bs < 872 -> read_header E s = Throw UnexpectedEof)
            /\ (872 <= length bs ->
                Exists (fun x => (x < 0)%Z) (header_words bs) ->
                read_header E s = Throw BadHeader)
            /\ (872 <= length bs ->
                Forall (fun x => (0 <= x)%Z) (header_words bs) ->
                read_header E s
                = Ok ({| unit_system := u; header_ints := header_words bs |},
                      state_at bs (past_end_seek s) 872))))
  /\ (forall h s',
        read_header E s = Ok (h, s') ->
        length (header_ints h) = 8
        /\ Forall (fun x => (0 <= x)%Z) (header_ints h)).
Proof.
  intros Hfresh bs. subst bs. split; [| split].
  - apply read_header_bad_tag.
  - intros Htag. split.
    + apply read_header_short_unit; trivial.
    + intros u Hlen Hu. split; [| split].
      * apply (read_header_short_ints E s Hfresh Htag Hlen u Hu).
      * intros Hlen' Hneg.
        rewrite (read_header_complete E s Hfresh Htag Hlen u Hu Hlen').
        apply existsb_negative_Exists in Hneg. rewrite Hneg. reflexivity.
      * intros Hlen' Hpos.
        rewrite (read_header_complete E s Hfresh Htag Hlen u Hu Hlen').
        apply existsb_negative_Forall in Hpos. rewrite Hpos. reflexivity.
  - intros h s'. apply read_header_Ok_nonneg.
Qed.

Lemma read_header_outcomes_witness :
  read_header sample_env (open_file sample_header)
  = Ok ({| unit_system := metric_bars;
           header_ints := [1; 1; 1; 1980; 1; 1; 1; 1]%Z |},
        state_at sample_header true 872)
  /\ read_header sample_env (open_file (take 100 sample_header))
     = Throw UnexpectedEof
  /\ read_header sample_env (open_file (bytes_of "PLOT"))
     = Throw BadHeader.
Proof.
  split; [| split].
  - apply (proj1 (proj2 (read_header_outcomes sample_env
                           (open_file sample_header) eq_refl))).
    + reflexivity.
    + vm_compute. lia.
    + reflexivity.
    + vm_compute. lia.
    + apply existsb_negative_Forall. reflexivity.
  - apply (proj1 (proj2 (read_header_outcomes sample_env
                           (open_file (take 100 sample_header)) eq_refl))
             eq_refl) with (u := metric_bars).
    + vm_compute. lia.
    + reflexivity.
    + vm_compute. lia.
  - apply (proj1 (read_header_outcomes sample_env
                    (open_file (bytes_of "PLOT")) eq_refl)).
    left. vm_compute. lia.
Defined.

(** ** Reading laid-out bytes *)

Lemma unread_is_app bs p x r :
  unread_is bs p (x ++ r) ->
  p + length x <= length bs /\ unread_is bs (p + length x) r.
Proof.
  intros [Hp Hd].
  assert (Hlen : length bs - p = length x + length r)
    by (rewrite <- length_drop, Hd, length_app; reflexivity).
  split; [lia |]. split; [lia |].
  rewrite <- drop_drop, Hd. apply drop_app_length.
Qed.

Lemma take_unread bs p x r :
  unread_is bs p (x ++ r) -> take (length x) (drop p bs) = x.
Proof. intros [_ ->]. apply take_app_length. Qed.

Lemma bind_Ok {A B} (m : M A) (k : A -> M B) s a s' :
  m s = Ok (a, s') -> bind m k s = k a s'.
Proof. unfold bind. intros ->. reflexivity. Qed.

(** Skipping the bytes [x] that lie ahead. *)
Lemma seekg_cur_unread n bs pe p x r :
  unread_is bs p (x ++ r) -> length x = n ->
  seekg_curM n (state_at bs pe p) = Ok (tt, state_at bs pe (p + n))
  /\ unread_is bs (p + n) r.
Proof.
  intros H <-. destruct (unread_is_app _ _ _ _ H) as [Hle Hr].
  split; trivial. unfold seekg_curM.
  rewrite seekg_cur_state_at by trivial. reflexivity.
Qed.

(** Reading the bytes [x] that lie ahead. *)
Lemma read_unread n buf bs pe p x r :
  unread_is bs p (x ++ r) -> length x = n ->
  readM n buf (state_at bs pe p) = Ok (x, state_at bs pe (p + n))
  /\ unread_is bs (p + n) r.
Proof.
  intros H <-. destruct (unread_is_app _ _ _ _ H) as [Hle Hr].
  split; trivial. unfold readM.
  rewrite read_state_at by trivial. rewrite (take_unread _ _ _ _ H).
  reflexivity.
Qed.

(** ** The record decoder on a block that is all there *)

Section Blocks.

Variable E : Env.
Variables (bs : list byte) (pe : bool).

Lemma read_vars_complete data ts t mp c i vs p ws r :
  unread_is bs p (ws ++ r) -> length ws = length vs * 4 ->
  read_vars data ts t mp c i vs (state_at bs pe p)
  = Ok (data ++ zip_with (mk_sample ts t mp c i) vs
                         (be_int32s (length vs) ws),
        state_at bs pe (p + length vs * 4))
  /\ unread_is bs (p + length vs * 4) r.
Proof.
  intros H Hlen. unfold read_vars.
  destruct (read_unread (length vs * 4) (zeros (length vs * 4)) bs pe p ws r
              H Hlen) as [Hrd Hr].
  split; trivial. rewrite (bind_Ok _ _ _ _ _ Hrd).
  rewrite ntoh_int32s_of_mem. reflexivity.
Qed.

Lemma read_item_complete data ts t mp c vs p it r :
  unread_is bs p (item_bytes it ++ r) -> item_ok (length vs) it ->
  read_item E ts t mp c vs data (state_at bs pe p)
  = Ok (data ++ item_samples ts t mp c vs it,
        state_at bs pe (p + length (item_bytes it)))
  /\ unread_is bs (p + length (item_bytes it)) r.
Proof.
  intros H (Hsep & Hname & Hpad & Hws). unfold item_bytes in *.
  rewrite <- !app_assoc in H. rewrite !length_app, Hsep, Hname, Hpad, Hws.
  unfold read_item.
  destruct (seekg_cur_unread 8 bs pe p _ _ H Hsep) as [H1 U1].
  rewrite (bind_Ok _ _ _ _ _ H1).
  destruct (read_unread 8 (indeterminate E 8) bs pe _ _ _ U1 Hname)
    as [H2 U2].
  rewrite (bind_Ok _ _ _ _ _ H2).
  destruct (seekg_cur_unread 64 bs pe _ _ _ U2 Hpad) as [H3 U3].
  rewrite (bind_Ok _ _ _ _ _ H3).
  destruct (read_vars_complete data ts t mp c (item_name it) vs _ _ _ U3 Hws)
    as [H4 U4].
  rewrite H4. unfold item_samples.
  replace (p + (8 + (8 + (64 + length vs * 4))))
    with (p + 8 + 8 + 64 + length vs * 4) by lia.
  split; trivial.
Qed.

Lemma read_items_complete its : forall data ts t mp c vs p r,
  unread_is bs p (concat (map item_bytes its) ++ r) ->
  Forall (item_ok (length vs)) its ->
  read_items E (length its) ts t mp c vs data (state_at bs pe p)
  = Ok (data ++ concat (map (item_samples ts t mp c vs) its),
        state_at bs pe (p + length (concat (map item_bytes its))))
  /\ unread_is bs (p + length (concat (map item_bytes its))) r.
Proof.
  induction its as [|it its IH]; intros data ts t mp c vs p r H Hok.
  - simpl in *. rewrite app_nil_r, Nat.add_0_r. split; trivial.
  - simpl in H. rewrite <- app_assoc in H.
    apply Forall_cons in Hok as [Hit Hok].
    destruct (read_item_complete data ts t mp c vs p it _ H Hit) as [H1 U1].
    cbn [length read_items map concat]. rewrite (bind_Ok _ _ _ _ _ H1).
    destruct (IH (data ++ item_samples ts t mp c vs it) ts t mp c vs _ r
                U1 Hok) as [H2 U2].
    rewrite H2. rewrite length_app, <- app_assoc, Nat.add_assoc.
    split; trivial.
Qed.

End Blocks.

Lemma be_uint32_range (m : list byte) : (0 <= be_uint32 m < two32)%Z.
Proof.
  unfold be_uint32, two32.
  destruct m as [|b0 [|b1 [|b2 [|b3 [|]]]]]; try lia.
  pose proof (byte_val_range b0). pose proof (byte_val_range b1).
  pose proof (byte_val_range b2). pose proof (byte_val_range b3). lia.
Qed.

(** The float made from a big-endian word has the bits of the word. *)
Lemma interpret_float_be (m : list byte) :
  interpret_float (to_int32 (be_uint32 m)) = Float (be_uint32 m).
Proof.
  unfold interpret_float. rewrite to_uint32_to_int32; trivial.
  apply be_uint32_range.
Qed.

Lemma be_int32s_lookup (n : nat) : forall (m : list byte) (k : nat),
  k < n -> be_int32s n m !! k = Some (to_int32 (be_uint32 (token4 m k))).
Proof.
  induction n as [|n IH]; intros m k Hk; [lia |].
  destruct k as [|k]; simpl.
  - unfold token4. simpl. rewrite drop_0. reflexivity.
  - rewrite IH by lia. unfold token4. rewrite drop_drop. reflexivity.
Qed.

(** The samples of an item: as many as the class has variable codes, the
    [k]-th carrying the [k]-th code and the bits of the [k]-th word. *)
Lemma item_samples_lookup ts t mp c vs it :
  length (item_samples ts t mp c vs it) = length vs
  /\ forall k v, vs !! k = Some v ->
       item_samples ts t mp c vs it !! k
       = Some {| timestep := ts; time := t; max_perfs := mp; classname := c;
                 instancename := item_name it; varname := v;
                 value := Float (be_uint32 (token4 (item_words it) k)) |}.
Proof.
  unfold item_samples. split.
  - rewrite length_zip_with, length_be_int32s. lia.
  - intros k v Hv. rewrite lookup_zip_with, Hv. simpl.
    rewrite be_int32s_lookup by (eapply lookup_lt_Some; eauto). simpl.
    unfold mk_sample. rewrite interpret_float_be. reflexivity.
Qed.

Section BlockDecoder.

Variable E : Env.
Variables (bs : list byte) (pe : bool).
Variable varnames : gmap (list byte) (list (list byte)).

Lemma cast_int32_Some w z s :
  float_to_int32 (interpret_float w) = Some z -> cast_int32 w s = Ok (z, s).
Proof. unfold cast_int32. intros ->. reflexivity. Qed.

Lemma read_block_complete c vs data p sep0 hdr its sep1 r ts ni mp :
  default [] (varnames !! c) = vs ->
  unread_is bs p (sep0 ++ hdr ++ concat (map item_bytes its) ++ sep1 ++ r) ->
  length sep0 = 8 -> length hdr = 20 -> length sep1 = 8 ->
  Forall (item_ok (length vs)) its ->
  float_to_int32 (interpret_float (nth 0 (be_int32s 5 hdr) 0%Z)) = Some ts ->
  float_to_int32 (interpret_float (nth 2 (be_int32s 5 hdr) 0%Z)) = Some ni ->
  Z.to_nat ni = length its ->
  float_to_int32 (interpret_float (nth 4 (be_int32s 5 hdr) 0%Z)) = Some mp ->
  let t := interpret_float (nth 1 (be_int32s 5 hdr) 0%Z) in
  let p' := p + 8 + 20 + length (concat (map item_bytes its)) + 8 in
  read_block E varnames c data (state_at bs pe p)
  = Ok (data ++ concat (map (item_samples ts t mp c vs) its),
        state_at bs pe p')
  /\ unread_is bs p' r.
Proof.
  intros Hvs H Hsep0 Hhdr Hsep1 Hits Hts Hni Hlen Hmp t p'.
  unfold read_block.
  destruct (seekg_cur_unread 8 bs pe p _ _ H Hsep0) as [H1 U1].
  rewrite (bind_Ok _ _ _ _ _ H1).
  destruct (read_unread 20 (zeros 20) bs pe _ _ _ U1 Hhdr) as [H2 U2].
  change (5 * 4) with 20. rewrite (bind_Ok _ _ _ _ _ H2).
  unfold goodM at 1. unfold bind at 1. cbn [good state_at eofbit failbit negb andb].
  rewrite ntoh_int32s_of_mem.
  rewrite (bind_Ok _ _ _ _ _ (cast_int32_Some _ _ _ Hts)).
  rewrite (bind_Ok _ _ _ _ _ (cast_int32_Some _ _ _ Hni)).
  rewrite (bind_Ok _ _ _ _ _ (cast_int32_Some _ _ _ Hmp)).
  rewrite Hlen, Hvs.
  destruct (read_items_complete E bs pe its data ts t mp c vs _ _ U2 Hits)
    as [H3 U3].
  fold t. rewrite (bind_Ok _ _ _ _ _ H3).
  destruct (seekg_cur_unread 8 bs pe _ _ _ U3 Hsep1) as [H4 U4].
  rewrite (bind_Ok _ _ _ _ _ H4). split; trivial.
Qed.

End BlockDecoder.

(** C1.  A record block of a class the catalog holds with the variable
    codes [vs].  The stream has, from the get position on, the class-name
    token [c], an 8-byte separator, the five header words [hdr], the items
    (each an 8-byte separator, an 8-byte instance name, 64 unused bytes and
    one big-endian word per code) and the 8-byte separator that closes the
    block.  The timestep, the item count and the max-perforation count are
    the first, third and fifth header words, reinterpreted as floats and
    truncated (an item count below zero stands for no item); the time is
    the second word reinterpreted; the fourth word plays no part.  One turn of the loop then appends, item after item, one
    sample per variable code in the order of the catalog, each with the
    block's timestep, time and max-perforation count, the class name, the
    item's instance name, and as value the float whose bits are the
    big-endian word. *)
Theorem record_block_decoded (E : Env)
    (varnames : gmap (list byte) (list (list byte)))
    (bs : list byte) (pe : bool) (p : nat)
    (c : list byte) (vs : list (list byte))
    (sep0 hdr : list byte) (its : list item) (sep1 r : list byte)
    (ts ni mp : Z) (data : list NexusData) (fuel : nat) :
  length c = 8 -> c <> stop -> varnames !! c = Some vs ->
  unread_is bs p
    (c ++ sep0 ++ hdr ++ concat (map item_bytes its) ++ sep1 ++ r) ->
  length sep0 = 8 -> length hdr = 20 -> length sep1 = 8 ->
  Forall (item_ok (length vs)) its ->
  float_to_int32 (interpret_float (nth 0 (be_int32s 5 hdr) 0%Z)) = Some ts ->
  float_to_int32 (interpret_float (nth 2 (be_int32s 5 hdr) 0%Z)) = Some ni ->
  Z.to_nat ni = length its ->
  float_to_int32 (interpret_float (nth 4 (be_int32s 5 hdr) 0%Z)) = Some mp ->
  let t := interpret_float (nth 1 (be_int32s 5 hdr) 0%Z) in
  let p' := p + 8 + 8 + 20 + length (concat (map item_bytes its)) + 8 in
  let samples := concat (map (item_samples ts t mp c vs) its) in
  load_loop E (S fuel) varnames data (state_at bs pe p)
  = load_loop E fuel varnames (data ++ samples) (state_at bs pe p')
  /\ unread_is bs p' r
  /\ length samples = length its * length vs
  /\ (forall j it k v,
        its !! j = Some it -> vs !! k = Some v ->
        samples !! (j * length vs + k)
        = Some {| timestep := ts; time := t; max_perfs := mp;
                  classname := c; instancename := item_name it;
                  varname := v;
                  value := Float (be_uint32 (token4 (item_words it) k)) |}).
Proof.
  intros Hc Hns Hvs H Hsep0 Hhdr Hsep1 Hits Hts Hni Hlen Hmp t p' samples.
  destruct (read_unread 8 (indeterminate E 8) bs pe p _ _ H Hc) as [H1 U1].
  assert (Hd : default [] (varnames !! c) = vs) by (rewrite Hvs; reflexivity).
  destruct (read_block_complete E bs pe varnames c vs data _ _ _ _ _ _ ts ni
              mp Hd U1 Hsep0 Hhdr Hsep1 Hits Hts Hni Hlen Hmp) as [H2 U2].
  split; [| split; [| split]].
  - cbn [load_loop]. unfold read_str. rewrite H1.
    unfold bytes_eqb. rewrite bool_decide_eq_false_2 by exact Hns.
    rewrite H2. reflexivity.
  - exact U2.
  - subst samples. clear. induction its as [|it its' IH]; simpl; trivial.
    rewrite length_app, IH.
    rewrite (proj1 (item_samples_lookup ts t mp c vs it)). reflexivity.
  - subst samples. clear. intros j. revert its.
    induction j as [|j IH]; intros [|it0 its'] it k v Hj Hk;
      try discriminate; simpl in *.
    + injection Hj as ->.
      rewrite lookup_app_l
        by (rewrite (proj1 (item_samples_lookup ts t mp c vs it));
            eapply lookup_lt_Some; eauto).
      apply item_samples_lookup, Hk.
    + rewrite lookup_app_r
        by (rewrite (proj1 (item_samples_lookup ts t mp c vs it0)); lia).
      rewrite (proj1 (item_samples_lookup ts t mp c vs it0)).
      replace (length vs + j * length vs + k - length vs)
        with (j * length vs + k) by lia.
      apply IH; trivial.
Qed.

(** The sample block, decoded by one turn of the loop followed by the turn
    that finds the sentinel. *)
Lemma record_block_decoded_witness :
  load_loop sample_env 2 sample_varnames [] (state_at sample_block true 0)
  = Some (Ok sample_data).
Proof.
  refine (eq_trans
    (proj1 (record_block_decoded sample_env sample_varnames sample_block true
       0 (bytes_of "FIELD   ") [bytes_of "QOP "; bytes_of "WCUT"]
       (zeros 8) sample_block_header [sample_item] (zeros 8)
       (bytes_of "STOP    ") 1 1 0 [] 1
       _ _ _ _ _ _ _ _ _ _ _ _)) _).
  - reflexivity.
  - discriminate.
  - reflexivity.
  - split; [vm_compute; lia | reflexivity].
  - reflexivity.
  - reflexivity.
  - reflexivity.
  - repeat constructor.
  - reflexivity.
  - reflexivity.
  - reflexivity.
  - reflexivity.
  - reflexivity.
Defined.

(** ** The decoder on an arbitrary stream *)

Lemma le_stream_refl s : le_stream s s.
Proof. unfold le_stream. auto. Qed.

Lemma le_stream_trans s1 s2 s3 :
  le_stream s1 s2 -> le_stream s2 s3 -> le_stream s1 s3.
Proof.
  intros (Hc1 & Hp1 & Hl1 & Hf1) (Hc2 & Hp2 & Hl2 & Hf2).
  unfold le_stream. repeat split; try congruence; [lia | auto].
Qed.

Lemma le_stream_seekg_cur n s : le_stream s (seekg_cur n s).
Proof.
  destruct s as [c p e f pe]. unfold le_stream, seekg_cur, seek_to. simpl.
  destruct f; simpl; [auto |].
  destruct ((p + n <=? length c) || pe); simpl; repeat split; auto; lia.
Qed.

Lemma le_stream_read n buf s : le_stream s (read n buf s).2.
Proof.
  destruct s as [c p e f pe]. unfold le_stream, read, good. simpl.
  destruct e, f; simpl; auto.
  destruct (_ =? _); simpl; repeat split; auto; lia.
Qed.

(** A read that leaves the stream good found the stream good and all its
    bytes there. *)
Lemma read_good_after n buf s :
  good (read n buf s).2 = true ->
  good s = true /\ n <= remaining s /\ pos (read n buf s).2 = pos s + n.
Proof.
  unfold read, remaining. destruct (good s) eqn:Hg.
  - destruct (_ =? n) eqn:Hn; simpl.
    + intros _. apply Nat.eqb_eq in Hn.
      rewrite length_take, length_drop in Hn. rewrite length_take, length_drop.
      repeat split; lia.
    + unfold good. simpl. discriminate.
  - simpl. unfold good. simpl. rewrite andb_false_r. discriminate.
Qed.

(** Past the end of the bytes, or on a failed stream, a read leaves the
    buffer as it was and the stream failed. *)
Lemma read_past_end n buf s q :
  reach s q -> length (content s) <= q -> 0 < n ->
  (read n buf s).1 = take n buf /\ failed (read n buf s).2.
Proof.
  intros [H | H] Hq Hn.
  - rewrite (read_failed _ _ _ H). split; reflexivity.
  - split; [| apply (read_short n buf s q H); lia].
    unfold read. rewrite (good_at_pos _ _ H). destruct H as (_ & _ & ->).
    simpl. rewrite drop_ge by lia. rewrite take_nil. simpl.
    rewrite drop_0. reflexivity.
Qed.

Section Totality.

Variable E : Env.

Lemma read_vars_Ok data ts t mp c i vs s :
  exists d, read_vars data ts t mp c i vs s
            = Ok (d, (read (length vs * 4) (zeros (length vs * 4)) s).2).
Proof.
  unfold read_vars, bind, readM, ret.
  destruct (read _ _ s) as [mem s']. eexists. reflexivity.
Qed.

(** Reading an item never throws; it moves the stream on by 80 + 4n bytes,
    or leaves it failed. *)
Lemma read_item_Ok ts t mp c vs data s :
  exists d s', read_item E ts t mp c vs data s = Ok (d, s')
    /\ le_stream s s'
    /\ forall p, reach s p -> reach s' (p + (8 + 8 + 64 + length vs * 4)).
Proof.
  unfold read_item, bind, seekg_curM, readM.
  destruct (read 8 (indeterminate E 8) (seekg_cur 8 s)) as [i s2] eqn:H2.
  destruct (read_vars_Ok data ts t mp c i vs (seekg_cur 64 s2)) as [d Hd].
  rewrite Hd. eexists _, _. split; [reflexivity |].
  assert (Hs2 : s2 = (read 8 (indeterminate E 8) (seekg_cur 8 s)).2)
    by (rewrite H2; reflexivity).
  split.
  - eapply le_stream_trans; [apply le_stream_seekg_cur |].
    eapply le_stream_trans; [apply (le_stream_read 8 (indeterminate E 8)) |].
    rewrite <- Hs2.
    eapply le_stream_trans; [apply (le_stream_seekg_cur 64) |].
    apply le_stream_read.
  - intros p Hp.
    replace (p + (8 + 8 + 64 + length vs * 4))
      with (p + 8 + 8 + 64 + length vs * 4) by lia.
    apply read_reach, seekg_cur_reach. rewrite Hs2.
    apply read_reach, seekg_cur_reach, Hp.
Qed.

Lemma read_items_Ok n : forall ts t mp c vs data s,
  exists d s', read_items E n ts t mp c vs data s = Ok (d, s')
    /\ le_stream s s'
    /\ forall p, reach s p ->
                 reach s' (p + n * (8 + 8 + 64 + length vs * 4)).
Proof.
  induction n as [|n IH]; intros ts t mp c vs data s.
  - exists data, s. simpl. split; [reflexivity |].
    split; [apply le_stream_refl |]. intros p Hp. rewrite Nat.add_0_r. exact Hp.
  - destruct (read_item_Ok ts t mp c vs data s) as (d1 & s1 & H1 & L1 & R1).
    destruct (IH ts t mp c vs d1 s1) as (d2 & s2 & H2 & L2 & R2).
    exists d2, s2. cbn [read_items]. rewrite (bind_Ok _ _ _ _ _ H1).
    split; [exact H2 |]. split; [eapply le_stream_trans; eauto |].
    intros p Hp.
    replace (p + S n * (8 + 8 + 64 + length vs * 4))
      with (p + (8 + 8 + 64 + length vs * 4)
            + n * (8 + 8 + 64 + length vs * 4)) by lia.
    apply R2, R1, Hp.
Qed.

Variable varnames : gmap (list byte) (list (list byte)).

(** The only exception a block raises is [unexpected_eof]. *)
Lemma read_block_Throw c data s e :
  read_block E varnames c data s = Throw e -> e = UnexpectedEof.
Proof.
  unfold read_block, bind, seekg_curM, readM, goodM, cast_int32, throw,
    undefined, ret.
  destruct (read _ _ _) as [mem s1].
  destruct (negb (good s1)); [congruence |].
  repeat (destruct (float_to_int32 _); [| discriminate]).
  match goal with
  | |- context [read_items E ?n ?ts ?t ?mp c ?vs data s1] =>
      destruct (read_items_Ok n ts t mp c vs data s1) as (d & s2 & -> & _)
  end.
  discriminate.
Qed.

(** On a failed stream the block raises [unexpected_eof]. *)
Lemma read_block_failed c data s :
  failed s -> read_block E varnames c data s = Throw UnexpectedEof.
Proof.
  intros H. unfold read_block, bind, seekg_curM, readM, goodM, throw.
  pose proof (read_keeps_failed (5 * 4) (zeros (5 * 4)) _
                (seek_to_failed (pos s + 8) s H)) as Hf.
  fold (seekg_cur 8 s) in Hf.
  destruct (read _ _ _) as [mem s1]. simpl in Hf.
  rewrite (good_failed _ Hf). reflexivity.
Qed.

(** A block that is decoded took at least its 20 header bytes off the
    stream. *)
Lemma read_block_Ok_progress c data s d s' :
  read_block E varnames c data s = Ok (d, s') ->
  content s' = content s /\ pos s <= pos s' /\ remaining s' < remaining s.
Proof.
  unfold read_block, bind, seekg_curM, readM, goodM, cast_int32, throw,
    undefined, ret.
  pose proof (le_stream_seekg_cur 8 s) as L0.
  pose proof (read_good_after (5 * 4) (zeros (5 * 4)) (seekg_cur 8 s)) as G.
  pose proof (le_stream_read (5 * 4) (zeros (5 * 4)) (seekg_cur 8 s)) as L1.
  destruct (read _ _ _) as [mem s1]. cbn [snd] in *.
  destruct (good s1); [| discriminate]. cbn [negb].
  repeat (destruct (float_to_int32 _); [| discriminate]).
  match goal with
  | |- context [read_items E ?n ?ts ?t ?mp c ?vs data s1] =>
      destruct (read_items_Ok n ts t mp c vs data s1) as (d2 & s2 & -> & L2 & _)
  end.
  pose proof (le_stream_seekg_cur 8 s2) as L3.
  intros [= <- <-].
  destruct (G eq_refl) as (_ & Hrem & Hpos).
  destruct L0 as (C0 & _ & P0 & _). destruct L1 as (C1 & _ & P1 & _).
  destruct L2 as (C2 & _ & P2 & _). destruct L3 as (C3 & _ & P3 & _).
  unfold remaining in *. split; [congruence |]. split; [lia |].
  rewrite C3, C2, C1, C0. rewrite C0 in Hrem. lia.
Qed.

End Totality.

Section Sentinel.

Variable E : Env.
Variable varnames : gmap (list byte) (list (list byte)).

(** The loop ends within its fuel, and with one of three outcomes: the
    samples, [unexpected_eof], or undefined behaviour. *)
Lemma load_loop_outcome fuel : forall data s,
  remaining s < fuel ->
  (exists d, load_loop E fuel varnames data s = Some (Ok d))
  \/ load_loop E fuel varnames data s = Some (Throw UnexpectedEof)
  \/ load_loop E fuel varnames data s = Some Undefined.
Proof.
  induction fuel as [|fuel IH]; intros data s Hfuel; [lia |].
  cbn [load_loop]. unfold read_str, readM.
  pose proof (le_stream_read 8 (indeterminate E 8) s) as L.
  destruct (read 8 (indeterminate E 8) s) as [c s1]. cbn [snd] in L.
  destruct (bytes_eqb c stop); [left; eauto |].
  destruct (read_block E varnames c data s1) as [[d s2] | e |] eqn:Hb.
  - apply read_block_Ok_progress in Hb as (Hc & _ & Hr).
    apply IH. destruct L as (C & _ & P & _). unfold remaining in *.
    rewrite C in *. lia.
  - apply read_block_Throw in Hb as ->. auto.
  - auto.
Qed.

Hypothesis junk : junk_not_sentinel E.

(** A token that compares equal to the sentinel was read in full from a
    good stream. *)
Lemma read_token_stop s :
  (read 8 (indeterminate E 8) s).1 = stop ->
  good s = true /\ 8 <= remaining s
  /\ take 8 (drop (pos s) (content s)) = stop.
Proof.
  unfold read, remaining. destruct (good s) eqn:Hg; simpl.
  - intros H. set (got := take 8 (drop (pos s) (content s))) in *.
    destruct (le_lt_dec 8 (length got)) as [Hle | Hlt].
    + rewrite take_app_le in H by trivial.
      subst got. rewrite length_take, length_drop in Hle.
      split; trivial. split; [lia |].
      rewrite take_take in H. rewrite Nat.min_id in H. exact H.
    + exfalso. apply junk.
      pose proof (f_equal (fun l => l !! 7) H) as H7. simpl in H7.
      rewrite lookup_take_lt in H7 by lia.
      rewrite lookup_app_r in H7 by lia. rewrite lookup_drop in H7.
      replace (length got + (7 - length got)) with 7 in H7 by lia.
      exact H7.
  - intros H. exfalso. apply junk.
    pose proof (f_equal (fun l => l !! 7) H) as H7. simpl in H7.
    rewrite lookup_take_lt in H7 by lia. exact H7.
Qed.

(** A successful return means a sentinel token lies in the stream at or
    after the get position. *)
Lemma load_loop_Ok_sentinel fuel : forall data s d,
  load_loop E fuel varnames data s = Some (Ok d) ->
  exists q, pos s <= q /\ take 8 (drop q (content s)) = stop.
Proof.
  induction fuel as [|fuel IH]; intros data s d H; [discriminate |].
  cbn [load_loop] in H. unfold read_str, readM in H.
  pose proof (le_stream_read 8 (indeterminate E 8) s) as L.
  pose proof (read_token_stop s) as T.
  destruct (read 8 (indeterminate E 8) s) as [c s1]. cbn [fst snd] in *.
  unfold bytes_eqb in H. case_bool_decide as Hc.
  - exists (pos s). split; [lia |]. apply T, Hc.
  - destruct (read_block E varnames c data s1) as [[d' s2] | e |] eqn:Hb;
      try discriminate.
    apply read_block_Ok_progress in Hb as (C2 & P2 & _).
    destruct (IH _ _ _ H) as (q & Hq & Hstop).
    destruct L as (C & _ & P & _).
    exists q. split; [lia |]. rewrite <- C, <- C2. exact Hstop.
Qed.

End Sentinel.

Section Truncation.

Variable E : Env.
Variable varnames : gmap (list byte) (list (list byte)).
Variables (bs : list byte) (pe : bool).

(** One turn of the loop over a block that is all there. *)
Lemma load_loop_complete_block p blk r data fuel :
  complete_block varnames blk -> unread_is bs p (blk ++ r) ->
  exists samples,
    load_loop E (S fuel) varnames data (state_at bs pe p)
    = load_loop E fuel varnames (data ++ samples)
        (state_at bs pe (p + length blk))
    /\ unread_is bs (p + length blk) r.
Proof.
  intros Hblk H.
  destruct Hblk as [c sep0 hdr its sep1 ts ni mp Hc Hns Hs0 Hh Hs1
                      (Hts & Hni & Hmp) Hlen Hits].
  rewrite <- !app_assoc in H.
  destruct (read_unread 8 (indeterminate E 8) bs pe p _ _ H Hc) as [H1 U1].
  destruct (read_block_complete E bs pe varnames c _ data _ _ _ _ _ _ ts ni
              mp eq_refl U1 Hs0 Hh Hs1 Hits Hts Hni Hlen Hmp) as [H2 U2].
  eexists. cbn [load_loop]. unfold read_str. rewrite H1.
  unfold bytes_eqb. rewrite bool_decide_eq_false_2 by exact Hns.
  rewrite H2.
  replace (p + length (c ++ sep0 ++ hdr ++ concat (map item_bytes its) ++ sep1))
    with (p + 8 + 8 + 20 + length (concat (map item_bytes its)) + 8)
    by (rewrite !length_app; lia).
  split; [reflexivity | exact U2].
Qed.

(** The header of the block is not all there. *)
Lemma read_block_short_header c data s p :
  reach s p -> length (content s) - (p + 8) < 20 ->
  read_block E varnames c data s = Throw UnexpectedEof.
Proof.
  intros Hr Hlen. unfold read_block, bind, seekg_curM, readM, goodM, throw.
  pose proof (seekg_cur_reach 8 s p Hr) as Hr1.
  pose proof (read_good_inv (5 * 4) (zeros (5 * 4)) _ _ Hr1) as G.
  pose proof (read_reach (5 * 4) (zeros (5 * 4)) _ _ Hr1) as Hr2.
  destruct (read _ _ _) as [mem s1]. cbn [snd] in *.
  rewrite (good_reach _ _ Hr2).
  destruct (failbit s1); [reflexivity |].
  destruct (G eq_refl) as [_ Hle].
  unfold seekg_cur in Hle. rewrite content_seek_to in Hle. simpl in Hle. lia.
Qed.

(** The header is there and announces more items than the stream holds: the
    block is decoded, and leaves the stream failed or past its end. *)
Lemma read_block_cut_items c data p hdr ts ni mp :
  p + 8 + 20 <= length bs -> take 20 (drop (p + 8) bs) = hdr ->
  header_casts hdr ts ni mp ->
  exists d s',
    read_block E varnames c data (state_at bs pe p) = Ok (d, s')
    /\ content s' = bs
    /\ reach s' (p + 8 + 20
                 + Z.to_nat ni
                   * (8 + 8 + 64 + length (default [] (varnames !! c)) * 4)
                 + 8).
Proof.
  intros Hlen Hhdr (Hts & Hni & Hmp). unfold read_block.
  unfold seekg_curM at 1. unfold bind at 1.
  rewrite seekg_cur_state_at by lia.
  unfold readM at 1. unfold bind at 1. change (5 * 4) with 20.
  rewrite read_state_at by lia. rewrite Hhdr.
  unfold goodM at 1. unfold bind at 1.
  cbn [good state_at eofbit failbit negb andb].
  rewrite ntoh_int32s_of_mem.
  rewrite (bind_Ok _ _ _ _ _ (cast_int32_Some _ _ _ Hts)).
  rewrite (bind_Ok _ _ _ _ _ (cast_int32_Some _ _ _ Hni)).
  rewrite (bind_Ok _ _ _ _ _ (cast_int32_Some _ _ _ Hmp)).
  match goal with
  | |- context [bind (read_items E ?n ?ts' ?t ?mp' c ?vs data) _ ?s1] =>
      destruct (read_items_Ok E n ts' t mp' c vs data s1)
        as (d & s2 & H2 & L2 & R2)
  end.
  rewrite (bind_Ok _ _ _ _ _ H2). unfold seekg_curM, bind, ret.
  exists d, (seekg_cur 8 s2). split; [reflexivity |]. split.
  - unfold seekg_cur. rewrite content_seek_to. apply L2.
  - apply seekg_cur_reach, R2. right. apply state_at_at_pos.
Qed.

Hypothesis junk : junk_not_sentinel E.

(** The token read on a failed stream, or with fewer than 8 bytes left, is
    not the sentinel, and leaves the stream failed. *)
Lemma junk_token_not_stop s q :
  reach s q -> length (content s) - q < 8 ->
  (read 8 (indeterminate E 8) s).1 <> stop
  /\ failed (read 8 (indeterminate E 8) s).2.
Proof.
  intros Hr Hq. split.
  - intros Hstop.
    destruct (read_token_stop E junk s Hstop) as (Hg & Hrem & _).
    destruct Hr as [Hf | (_ & _ & Hp)].
    + rewrite (good_failed _ Hf) in Hg. discriminate.
    + unfold remaining in Hrem. lia.
  - destruct Hr as [Hf | Hat].
    + apply read_keeps_failed, Hf.
    + apply (read_short 8 _ s q Hat Hq).
Qed.

(** With fewer than 8 bytes left, or the stream failed, the next turn of
    the loop raises [unexpected_eof]. *)
Lemma load_loop_past_end fuel data s q :
  reach s q -> length (content s) - q < 8 ->
  load_loop E (S fuel) varnames data s = Some (Throw UnexpectedEof).
Proof.
  intros Hr Hq. cbn [load_loop]. unfold read_str, readM.
  destruct (junk_token_not_stop s q Hr Hq) as [Hns Hf].
  destruct (read 8 (indeterminate E 8) s) as [c s1]. cbn [fst snd] in *.
  unfold bytes_eqb. rewrite bool_decide_eq_false_2 by exact Hns.
  rewrite (read_block_failed E varnames c data s1 Hf). reflexivity.
Qed.

(** Bytes that are cut short make the loop raise [unexpected_eof]. *)
Lemma cut_short_throws tail p data fuel :
  cut_short varnames tail -> drop p bs = tail ->
  length tail < fuel ->
  load_loop E fuel varnames data (state_at bs pe p)
  = Some (Throw UnexpectedEof).
Proof.
  intros Hcut Htail Hfuel.
  assert (Hlen : length tail = length bs - p)
    by (rewrite <- Htail; apply length_drop).
  destruct fuel as [|fuel]; [lia |].
  destruct Hcut as [Hshort | (Hlong & Hns & Hcut)].
  - apply (load_loop_past_end fuel data _ p).
    + right. apply state_at_at_pos.
    + simpl. lia.
  - cbn [load_loop]. unfold read_str, readM.
    rewrite read_state_at by lia. rewrite Htail.
    unfold bytes_eqb. rewrite bool_decide_eq_false_2 by exact Hns.
    destruct (le_lt_dec 36 (length tail)) as [H36 | H36].
    2: { rewrite (read_block_short_header _ data _ (p + 8)).
         - reflexivity.
         - right. apply state_at_at_pos.
         - simpl. lia. }
    destruct Hcut as [Hshort | (ts & ni & mp & Hcasts & Hshort)]; [lia |].
    + destruct (read_block_cut_items (take 8 tail) data (p + 8)
                  (take 20 (drop 16 tail)) ts ni mp) as (d & s' & -> & C & R).
      * lia.
      * rewrite <- Htail, drop_drop. do 2 f_equal. lia.
      * exact Hcasts.
      * destruct fuel as [|fuel]; [lia |].
        eapply load_loop_past_end; [exact R |]. rewrite C. lia.
Qed.

(** A stream truncated before a sentinel makes the loop raise
    [unexpected_eof]. *)
Lemma truncated_throws tail :
  truncated varnames tail ->
  forall p data fuel,
    drop p bs = tail -> length tail < fuel ->
    load_loop E fuel varnames data (state_at bs pe p)
    = Some (Throw UnexpectedEof).
Proof.
  induction 1 as [tail Hcut | blk rest Hblk Htr IH];
    intros p data fuel Htail Hfuel.
  - eapply cut_short_throws; eauto.
  - assert (Hpos : 0 < length blk).
    { destruct Hblk. rewrite !length_app. lia. }
    assert (Hu : unread_is bs p (blk ++ rest)).
    { split; trivial.
      pose proof (f_equal length Htail) as Hl.
      rewrite length_drop, length_app in Hl. lia. }
    destruct fuel as [|fuel]; [lia |].
    destruct (load_loop_complete_block p blk rest data fuel Hblk Hu)
      as (samples & -> & [_ Hrest]).
    apply IH; trivial. rewrite length_app in Hfuel. lia.
Qed.

End Truncation.

(** ** The catalog decoder returns a good stream *)

Lemma bind_Ok_inv {A B} (m : M A) (k : A -> M B) s r :
  bind m k s = Ok r -> exists a s', m s = Ok (a, s') /\ k a s' = Ok r.
Proof.
  unfold bind. destruct (m s) as [[a s'] | e |]; try discriminate.
  intros H. eauto.
Qed.

Ltac inv_bind H :=
  repeat match type of H with
    | bind _ _ _ = Ok _ =>
        let a := fresh "a" in
        let s := fresh "s" in
        let Hm := fresh "Hm" in
        apply bind_Ok_inv in H as (a & s & Hm & H)
    | (if ?c then _ else _) _ = Ok _ =>
        let Hc := fresh "Hc" in
        destruct c eqn:Hc; [discriminate H |]
    | (let _ := _ in _) _ = Ok _ => cbv zeta in H
    end.

Lemma read_varnames_Ok_good E nc s vn s' :
  read_varnames E nc s = Ok (vn, s') -> good s' = true.
Proof.
  unfold read_varnames. intros H. inv_bind H.
  unfold eofM in Hm5. unfold goodM in Hm6.
  injection Hm5 as <- <-. injection Hm6 as <- <-.
  unfold ret in H. injection H as <- <-.
  apply orb_false_elim in Hc2 as [_ Hg]. apply negb_false_iff in Hg. exact Hg.
Qed.

Lemma good_state_at s :
  good s = true -> s = state_at (content s) (past_end_seek s) (pos s).
Proof.
  destruct s as [c p e f pe]. unfold good, state_at. simpl.
  destruct e, f; try discriminate. reflexivity.
Qed.

Lemma load_unfold E s h s1 vn s2 :
  read_header E s = Ok (h, s1) ->
  read_varnames E (num_classes E h) s1 = Ok (vn, s2) ->
  load E s =
  match load_loop E (load_fuel s2) vn [] s2 with
  | Some (Ok data) => Some (Ok {| header := h; data := data |})
  | Some (Throw e) => Some (Throw e)
  | Some Undefined => Some Undefined
  | None => None
  end.
Proof. intros H1 H2. unfold load. rewrite H1, H2. reflexivity. Qed.

(** C2.  A stream whose header and catalog decode.  If the next 8 bytes are
    the sentinel "STOP    ", [nex::load] returns the plot with no sample.
    If the rest of the stream is truncated before a sentinel (complete
    blocks, then bytes that end inside a block or inside the token that
    opens one), [nex::load] raises [unexpected_eof].  A successful return
    means a sentinel token lies in the rest of the stream; and the loop has
    no outcome other than success, [unexpected_eof] and undefined behaviour
    (a header word that is no [int32_t] once truncated).  The second and
    third statement take that the bytes an uninitialised token buffer holds
    do not end in a space: the token of a short read is compared with the
    sentinel before the stream is checked. *)
Theorem sentinel_termination (E : Env) (s : istream)
    (h : NexusHeader) (s1 : istream)
    (vn : gmap (list byte) (list (list byte))) (s2 : istream) :
  read_header E s = Ok (h, s1) ->
  read_varnames E (num_classes E h) s1 = Ok (vn, s2) ->
  let rest := drop (pos s2) (content s2) in
  (take 8 rest = stop ->
   load E s = Some (Ok {| header := h; data := [] |}))
  /\ (junk_not_sentinel E -> truncated vn rest ->
      load E s = Some (Throw UnexpectedEof))
  /\ (junk_not_sentinel E ->
      forall plt, load E s = Some (Ok plt) ->
        exists q, pos s2 <= q /\ take 8 (drop q (content s2)) = stop)
  /\ ((exists plt, load E s = Some (Ok plt))
      \/ load E s = Some (Throw UnexpectedEof)
      \/ load E s = Some Undefined).
Proof.
  intros H1 H2 rest. rewrite (load_unfold E s h s1 vn s2 H1 H2).
  pose proof (read_varnames_Ok_good _ _ _ _ _ H2) as Hg. clear H1 H2.
  destruct s2 as [bs p e f pe]. unfold good in Hg. simpl in Hg, rest.
  destruct e, f; try discriminate. clear Hg.
  change (Istream bs p false false pe) with (state_at bs pe p).
  cbn [pos content state_at].
  split; [| split; [| split]].
  - intros Hstop. unfold load_fuel. cbn [load_loop]. unfold read_str, readM.
    assert (Hlen : 8 <= length rest).
    { destruct (le_lt_dec 8 (length rest)); trivial.
      pose proof (f_equal length Hstop) as Hl.
      rewrite length_take in Hl. change (length stop) with 8 in Hl. lia. }
    subst rest. rewrite length_drop in Hlen.
    rewrite read_state_at by lia. rewrite Hstop.
    unfold bytes_eqb. rewrite bool_decide_eq_true_2 by reflexivity.
    reflexivity.
  - intros Hjunk Htr.
    rewrite (truncated_throws E vn bs pe Hjunk rest Htr p [] _ eq_refl).
    + reflexivity.
    + unfold load_fuel. subst rest. simpl. rewrite length_drop. lia.
  - intros Hjunk plt Hplt.
    destruct (load_loop E _ vn [] _) as [[d | e |] |] eqn:Hl;
      try discriminate.
    apply (load_loop_Ok_sentinel E vn Hjunk _ _ _ _ Hl).
  - destruct (load_loop_outcome E vn (load_fuel (state_at bs pe p)) []
                (state_at bs pe p)) as [[d ->] | [-> | ->]]; eauto.
    unfold load_fuel, remaining. simpl. lia.
Qed.

Lemma sample_junk : junk_not_sentinel sample_env.
Proof. unfold junk_not_sentinel. simpl. discriminate. Qed.

Lemma sentinel_termination_witness :
  load sample_env (open_file sample_empty_file)
  = Some (Ok {| header := sample_nexus_header; data := [] |})
  /\ load sample_env (open_file sample_cut_file) = Some (Throw UnexpectedEof).
Proof.
  split.
  - apply (proj1 (sentinel_termination sample_env (open_file sample_empty_file)
                    sample_nexus_header (state_at sample_empty_file true 872)
                    sample_varnames (state_at sample_empty_file true 928)
                    ltac:(vm_compute; reflexivity)
                    ltac:(vm_compute; reflexivity))).
    vm_compute. reflexivity.
  - apply (proj1 (proj2 (sentinel_termination sample_env
                    (open_file sample_cut_file)
                    sample_nexus_header (state_at sample_cut_file true 872)
                    sample_varnames (state_at sample_cut_file true 928)
                    ltac:(vm_compute; reflexivity)
                    ltac:(vm_compute; reflexivity)))).
    + exact sample_junk.
    + apply truncated_here. left. vm_compute. lia.
Defined.

(** ** A class name the catalog does not hold *)

Lemma load_loop_Throw E vn fuel : forall data s e,
  load_loop E fuel vn data s = Some (Throw e) -> e = UnexpectedEof.
Proof.
  induction fuel as [|fuel IH]; intros data s e H; [discriminate |].
  cbn [load_loop] in H. unfold read_str, readM in H.
  destruct (read 8 (indeterminate E 8) s) as [c s1].
  destruct (bytes_eqb c stop); [discriminate |].
  destruct (read_block E vn c data s1) as [[d s2] | e' |] eqn:Hb.
  - eapply IH; eauto.
  - injection H as <-. eapply read_block_Throw; eauto.
  - discriminate.
Qed.

(** C3, counterexample.  The class WELL is not in the catalog of the sample
    file and is not the sentinel; the decode of a stream with a WELL block
    returns a plot, with no sample, and raises nothing. *)
Lemma unknown_class_counterexample :
  sample_varnames !! bytes_of "WELL    " = None
  /\ bytes_of "WELL    " <> stop
  /\ read_varnames sample_env 1 (state_at sample_unknown_class_file true 872)
     = Ok (sample_varnames, state_at sample_unknown_class_file true 928)
  /\ load sample_env (open_file sample_unknown_class_file)
     = Some (Ok {| header := sample_nexus_header; data := [] |})
  /\ load sample_env (open_file sample_unknown_class_file)
     <> Some (Throw BadHeader).
Proof.
  split; [vm_compute; reflexivity |].
  split; [discriminate |].
  split; [vm_compute; reflexivity |].
  assert (H : load sample_env (open_file sample_unknown_class_file)
              = Some (Ok {| header := sample_nexus_header; data := [] |}))
    by (vm_compute; reflexivity).
  split; [exact H |]. rewrite H. discriminate.
Qed.

(** C3, as amended.  A block whose class-name token is neither the sentinel
    nor a class of the catalog is decoded as a block of a class without
    variables: each of its items takes 8 + 8 + 64 bytes and gives no sample,
    and the loop goes on behind the closing separator with the samples it
    had.  The loop raises no exception other than [unexpected_eof]. *)
Theorem unknown_class_block (E : Env)
    (varnames : gmap (list byte) (list (list byte)))
    (bs : list byte) (pe : bool) (p : nat)
    (c sep0 hdr : list byte) (its : list item) (sep1 r : list byte)
    (ts ni mp : Z) (data : list NexusData) (fuel : nat) :
  length c = 8 -> c <> stop -> varnames !! c = None ->
  unread_is bs p
    (c ++ sep0 ++ hdr ++ concat (map item_bytes its) ++ sep1 ++ r) ->
  length sep0 = 8 -> length hdr = 20 -> length sep1 = 8 ->
  Forall (item_ok 0) its ->
  header_casts hdr ts ni mp -> Z.to_nat ni = length its ->
  let p' := p + 8 + 8 + 20 + length its * (8 + 8 + 64) + 8 in
  load_loop E (S fuel) varnames data (state_at bs pe p)
  = load_loop E fuel varnames data (state_at bs pe p')
  /\ unread_is bs p' r
  /\ (forall fuel' data' s' e,
        load_loop E fuel' varnames data' s' = Some (Throw e) ->
        e = UnexpectedEof).
Proof.
  intros Hc Hns Hvs H Hsep0 Hhdr Hsep1 Hits (Hts & Hni & Hmp) Hlen p'.
  destruct (read_unread 8 (indeterminate E 8) bs pe p _ _ H Hc) as [H1 U1].
  assert (Hd : default [] (varnames !! c) = []) by (rewrite Hvs; reflexivity).
  destruct (read_block_complete E bs pe varnames c [] data _ _ _ _ _ _ ts ni
              mp Hd U1 Hsep0 Hhdr Hsep1 Hits Hts Hni Hlen Hmp) as [H2 U2].
  assert (Hsamples : forall t,
            concat (map (item_samples ts t mp c []) its) = []).
  { intros t. clear. induction its as [|it its' IH]; simpl; trivial. }
  assert (Hbytes : length (concat (map item_bytes its))
                   = length its * (8 + 8 + 64)).
  { clear - Hits. induction Hits as [|it its' (H1 & H2 & H3 & H4) _ IH];
      simpl; trivial.
    rewrite length_app, IH. unfold item_bytes.
    rewrite !length_app, H1, H2, H3, H4. lia. }
  rewrite Hsamples, app_nil_r, Hbytes in H2. rewrite Hbytes in U2.
  split; [| split].
  - cbn [load_loop]. unfold read_str. rewrite H1.
    unfold bytes_eqb. rewrite bool_decide_eq_false_2 by exact Hns.
    rewrite H2. reflexivity.
  - exact U2.
  - intros fuel' data' s' e. apply load_loop_Throw.
Qed.

Lemma unknown_class_block_witness :
  load_loop sample_env 2 sample_varnames []
    (state_at sample_unknown_block true 0)
  = Some (Ok []).
Proof.
  refine (eq_trans
    (proj1 (unknown_class_block sample_env sample_varnames
       sample_unknown_block true 0 (bytes_of "WELL    ")
       (zeros 8) sample_block_header [sample_bare_item] (zeros 8)
       (bytes_of "STOP    ") 1 1 0 [] 1
       _ _ _ _ _ _ _ _ _ _)) _).
  - reflexivity.
  - discriminate.
  - vm_compute. reflexivity.
  - split; [vm_compute; lia | reflexivity].
  - reflexivity.
  - reflexivity.
  - reflexivity.
  - repeat constructor.
  - repeat split.
  - reflexivity.
  - reflexivity.
Defined.

(** * Further properties of the decoder *)

(** ** The catalog decoder on a catalog that is all there *)

Lemma token4_app_S (c x : list byte) (k : nat) :
  length c = 4 -> token4 (c ++ x) (S k) = token4 x k.
Proof.
  intros Hc. unfold token4. f_equal.
  change (S k * 4) with (4 + k * 4). rewrite <- drop_drop.
  replace (drop 4 (c ++ x)) with x; [reflexivity |].
  rewrite <- Hc. symmetry. apply drop_app_length.
Qed.

Lemma token4_app_0 (c x : list byte) :
  length c = 4 -> token4 (c ++ x) 0 = c.
Proof.
  intros Hc. unfold token4. simpl. rewrite drop_0.
  rewrite <- Hc. apply take_app_length.
Qed.

(** Splitting the bulk read gives the codes back, in their order. *)
Lemma tokens_of_concat (codes : list (list byte)) :
  Forall (fun v => length v = 4) codes ->
  map (token4 (concat codes)) (seq 0 (length codes)) = codes.
Proof.
  induction 1 as [|c cs Hc Hcs IH]; [reflexivity |].
  cbn [length seq map concat]. rewrite token4_app_0 by trivial. f_equal.
  rewrite <- fmap_S_seq, <- list_fmap_compose.
  etransitivity; [| exact IH].
  apply map_ext. intros k. apply token4_app_S, Hc.
Qed.

Lemma foldl_push_back c (f : nat -> list byte) ks :
  forall acc (m : gmap (list byte) (list (list byte))),
  foldl (fun m k => push_back_at c (f k) m) (<[c := acc]> m) ks
  = <[c := acc ++ map f ks]> m.
Proof.
  induction ks as [|k ks IH]; intros acc m; simpl.
  - rewrite app_nil_r. reflexivity.
  - unfold push_back_at at 2. rewrite lookup_insert_eq. simpl.
    rewrite insert_insert_eq. rewrite IH, <- app_assoc. reflexivity.
Qed.

Lemma length_concat_codes (codes : list (list byte)) :
  Forall (fun v => length v = 4) codes ->
  length (concat codes) = length codes * 4.
Proof.
  induction 1 as [|c cs Hc Hcs IH]; [reflexivity |].
  simpl. rewrite length_app, Hc, IH. reflexivity.
Qed.

Section Catalog.

Variable E : Env.
Variables (bs : list byte) (pe : bool).

Lemma read_classnames_complete names : forall buf p r,
  unread_is bs p (concat names ++ r) ->
  Forall (fun c => length c = 8) names ->
  read_classnames (length names) buf (state_at bs pe p)
  = Ok (names, state_at bs pe (p + length (concat names)))
  /\ unread_is bs (p + length (concat names)) r.
Proof.
  induction names as [|c names IH]; intros buf p r H Hok.
  - simpl in *. rewrite Nat.add_0_r. split; trivial.
  - simpl in H. rewrite <- app_assoc in H.
    apply Forall_cons in Hok as [Hc Hok].
    destruct (read_unread 8 buf bs pe p _ _ H Hc) as [H1 U1].
    destruct (IH c _ _ U1 Hok) as [H2 U2].
    cbn [length read_classnames concat].
    rewrite (bind_Ok _ _ _ _ _ H1), (bind_Ok _ _ _ _ _ H2).
    rewrite length_app, Hc, Nat.add_assoc. split; trivial.
Qed.

Lemma read_class_vars_complete cls : forall m p r,
  unread_is bs p (concat (map class_bytes cls) ++ r) ->
  Forall class_ok cls ->
  read_class_vars (map (fun ce => (ce_name ce, class_count ce)) cls) m
    (state_at bs pe p)
  = Ok (foldl (fun m ce => <[ce_name ce := ce_codes ce]> m) m cls,
        state_at bs pe (p + length (concat (map class_bytes cls))))
  /\ unread_is bs (p + length (concat (map class_bytes cls))) r.
Proof.
  induction cls as [|ce cls IH]; intros m p r H Hok.
  - simpl in *. rewrite Nat.add_0_r. split; trivial.
  - apply Forall_cons in Hok as [(Hn & Ht & Hcodes & Hsep & Hmax) Hok].
    cbn [map concat] in H. unfold class_bytes at 1 in H.
    rewrite <- !app_assoc in H.
    destruct (seekg_cur_unread 4 bs pe p _ _ H Ht) as [H1 U1].
    pose proof (length_concat_codes _ Hcodes) as Hlen.
    assert (Hz : Z.to_nat (class_count ce * 4) = length (ce_codes ce) * 4)
      by (unfold class_count; lia).
    destruct (read_unread _ (zeros (length (ce_codes ce) * 4)) bs pe _ _ _
                U1 Hlen) as [H2 U2].
    destruct (seekg_cur_unread 8 bs pe _ _ _ U2 Hsep) as [H3 U3].
    destruct (IH (<[ce_name ce := ce_codes ce]> m) _ _ U3 Hok) as [H4 U4].
    cbn [map read_class_vars]. rewrite (bind_Ok _ _ _ _ _ H1).
    unfold class_count in Hmax.
    assert (Hov : (INT_MAX <? class_count ce * 4)%Z = false)
      by (apply Z.ltb_ge; exact Hmax).
    rewrite Hov, Hz. rewrite (bind_Ok _ _ _ _ _ H2).
    assert (Hn' : Z.to_nat (class_count ce) = length (ce_codes ce))
      by (unfold class_count; lia).
    rewrite Hn', foldl_push_back, tokens_of_concat by trivial.
    cbn [app].
    rewrite (bind_Ok _ _ _ _ _ H3). cbn [foldl concat].
    unfold class_bytes at 1 3. rewrite !length_app, Ht, Hlen, Hsep.
    replace (p + (4 + (length (ce_codes ce) * 4 + 8)
                  + length (concat (map class_bytes cls))))
      with (p + 4 + length (ce_codes ce) * 4 + 8
            + length (concat (map class_bytes cls))) by lia.
    split; trivial.
Qed.

End Catalog.

Lemma zip_name_count (cls : list class_entry) :
  zip (map ce_name cls) (map class_count cls)
  = map (fun ce => (ce_name ce, class_count ce)) cls.
Proof. induction cls as [|ce cls IH]; simpl; [| rewrite IH]; reflexivity. Qed.

Lemma existsb_negative_counts (cls : list class_entry) :
  existsb negative (map class_count cls) = false.
Proof.
  apply existsb_negative_Forall, Forall_forall. intros x Hx.
  apply list_elem_of_fmap in Hx as (ce & -> & _). unfold class_count. lia.
Qed.

Lemma catalog_of_snoc (cls : list class_entry) (ce : class_entry) :
  catalog_of (cls ++ [ce]) = <[ce_name ce := ce_codes ce]> (catalog_of cls).
Proof. unfold catalog_of. rewrite foldl_app. reflexivity. Qed.

(** A name of the catalog carries the codes of the last class of that
    name. *)
Lemma catalog_of_lookup (cls : list class_entry) (c : list byte) :
  catalog_of cls !! c
  = ce_codes <$> last (filter (fun ce => ce_name ce = c) cls).
Proof.
  induction cls as [|ce cls IH] using rev_ind; [reflexivity |].
  rewrite catalog_of_snoc, filter_app.
  destruct (decide (ce_name ce = c)) as [Heq | Hne].
  - rewrite Heq, lookup_insert_eq.
    rewrite filter_cons_True by exact Heq. rewrite filter_nil, last_snoc.
    reflexivity.
  - rewrite lookup_insert_ne by exact Hne.
    rewrite filter_cons_False by exact Hne. rewrite filter_nil, app_nil_r.
    exact IH.
Qed.

(** The catalog decoder reads the names of the classes, their counts, and
    then, after one separator, for every class a 4-byte placeholder, the
    codes and a separator.  On a stream that holds all of it the decoder
    returns the catalog of the classes in order and stops behind the last
    separator.  In the catalog a class name carries the codes, in the order
    read, of the last class of that name; a name that is not among the
    classes is absent. *)
Theorem read_varnames_complete (E : Env) (bs : list byte) (pe : bool)
    (p : nat) (cls : list class_entry)
    (sep0 sep1 counts sep2 r : list byte) :
  unread_is bs p
    (sep0 ++ concat (map ce_name cls) ++ sep1 ++ counts ++ sep2
     ++ concat (map class_bytes cls) ++ r) ->
  length sep0 = 8 -> length sep1 = 8 -> length sep2 = 8 ->
  length counts = length cls * 4 ->
  be_int32s (length cls) counts = map class_count cls ->
  Forall class_ok cls ->
  (Z.of_nat (length cls) * 4 <= INT_MAX)%Z ->
  let p' := p + 8 + length cls * 8 + 8 + length cls * 4 + 8
            + length (concat (map class_bytes cls)) in
  read_varnames E (Z.of_nat (length cls)) (state_at bs pe p)
  = Ok (catalog_of cls, state_at bs pe p')
  /\ unread_is bs p' r
  /\ (forall c, catalog_of cls !! c
                = ce_codes <$> last (filter (fun ce => ce_name ce = c) cls)).
Proof.
  intros H Hs0 Hs1 Hs2 Hcnt Hbe Hok Hmax p'.
  assert (Hnames : Forall (fun c => length c = 8) (map ce_name cls)).
  { apply Forall_fmap. eapply Forall_impl; [exact Hok |].
    intros ce (Hn & _). exact Hn. }
  assert (Hnl : length (concat (map ce_name cls)) = length cls * 8).
  { clear - Hnames. induction cls as [|ce cls' IH]; [reflexivity |].
    simpl in *. apply Forall_cons in Hnames as [Hc Hn].
    rewrite length_app, Hc, IH by trivial. lia. }
  destruct (seekg_cur_unread 8 bs pe p _ _ H Hs0) as [H1 U1].
  destruct (read_classnames_complete bs pe (map ce_name cls)
              (indeterminate E 8) _ _ U1 Hnames) as [H2 U2].
  rewrite length_map in H2. rewrite Hnl in H2, U2.
  destruct (seekg_cur_unread 8 bs pe _ _ _ U2 Hs1) as [H3 U3].
  destruct (read_unread _ (zeros (length cls * 4)) bs pe _ _ _ U3 Hcnt)
    as [H4 U4].
  destruct (seekg_cur_unread 8 bs pe _ _ _ U4 Hs2) as [H5 U5].
  destruct (read_class_vars_complete bs pe cls ∅ _ _ U5 Hok) as [H6 U6].
  fold p' in H6, U6. split; [| split; [exact U6 | apply catalog_of_lookup]].
  unfold read_varnames.
  assert (Hneg : (Z.of_nat (length cls) <? 0)%Z = false)
    by (apply Z.ltb_ge; lia).
  assert (Hov : (INT_MAX <? Z.of_nat (length cls) * 4)%Z = false)
    by (apply Z.ltb_ge; exact Hmax).
  rewrite Hneg, (bind_Ok _ _ _ _ _ H1), Nat2Z.id, (bind_Ok _ _ _ _ _ H2).
  rewrite (bind_Ok _ _ _ _ _ H3), Hov.
  replace (Z.to_nat (Z.of_nat (length cls) * 4)) with (length cls * 4) by lia.
  rewrite (bind_Ok _ _ _ _ _ H4). cbv zeta.
  rewrite ntoh_int32s_of_mem, Hbe, existsb_negative_counts.
  rewrite (bind_Ok _ _ _ _ _ H5), zip_name_count, (bind_Ok _ _ _ _ _ H6).
  reflexivity.
Qed.

Lemma read_varnames_complete_witness :
  read_varnames sample_env 2 (state_at sample_two_classes true 0)
  = Ok (sample_two_catalog, state_at sample_two_classes true 80).
Proof.
  apply (proj1 (read_varnames_complete sample_env sample_two_classes true 0
                  sample_class_entries (zeros 8) (zeros 8)
                  (be32 1 ++ be32 1) (zeros 8) []
                  ltac:(split; [vm_compute; lia | reflexivity])
                  eq_refl eq_refl eq_refl eq_refl eq_refl
                  ltac:(repeat constructor; vm_compute; discriminate)
                  ltac:(vm_compute; discriminate))).
Defined.

(** A negative count is reported as [bad_header] as soon as the counts are
    read, whatever follows them in the stream. *)
Theorem read_varnames_negative_count (E : Env) (bs : list byte) (pe : bool)
    (p : nat) (names : list (list byte)) (sep0 sep1 counts r : list byte) :
  unread_is bs p (sep0 ++ concat names ++ sep1 ++ counts ++ r) ->
  length sep0 = 8 -> length sep1 = 8 ->
  Forall (fun c => length c = 8) names ->
  length counts = length names * 4 ->
  (Z.of_nat (length names) * 4 <= INT_MAX)%Z ->
  Exists (fun x => (x < 0)%Z) (be_int32s (length names) counts) ->
  read_varnames E (Z.of_nat (length names)) (state_at bs pe p)
  = Throw BadHeader.
Proof.
  intros H Hs0 Hs1 Hnames Hcnt Hmax Hneg.
  destruct (seekg_cur_unread 8 bs pe p _ _ H Hs0) as [H1 U1].
  destruct (read_classnames_complete bs pe names (indeterminate E 8) _ _
              U1 Hnames) as [H2 U2].
  destruct (seekg_cur_unread 8 bs pe _ _ _ U2 Hs1) as [H3 U3].
  destruct (read_unread _ (zeros (length names * 4)) bs pe _ _ _ U3 Hcnt)
    as [H4 U4].
  unfold read_varnames.
  assert (Hn : (Z.of_nat (length names) <? 0)%Z = false)
    by (apply Z.ltb_ge; lia).
  assert (Hov : (INT_MAX <? Z.of_nat (length names) * 4)%Z = false)
    by (apply Z.ltb_ge; exact Hmax).
  rewrite Hn, (bind_Ok _ _ _ _ _ H1), Nat2Z.id, (bind_Ok _ _ _ _ _ H2).
  rewrite (bind_Ok _ _ _ _ _ H3), Hov.
  replace (Z.to_nat (Z.of_nat (length names) * 4))
    with (length names * 4) by lia.
  rewrite (bind_Ok _ _ _ _ _ H4). cbv zeta.
  rewrite ntoh_int32s_of_mem.
  apply existsb_negative_Exists in Hneg. rewrite Hneg. reflexivity.
Qed.

Lemma read_varnames_negative_count_witness :
  read_varnames sample_env 1
    (state_at (zeros 8 ++ bytes_of "FIELD   " ++ zeros 8 ++ be32 (-1)) true 0)
  = Throw BadHeader.
Proof.
  apply (read_varnames_negative_count sample_env _ true 0
           [bytes_of "FIELD   "] (zeros 8) (zeros 8) (be32 (-1)) []
           ltac:(split; [vm_compute; lia | reflexivity])
           eq_refl eq_refl ltac:(repeat constructor) eq_refl
           ltac:(vm_compute; discriminate)).
  apply existsb_negative_Exists. reflexivity.
Defined.

(** ** The catalog decoder on an arbitrary stream *)

Section CatalogOutcomes.

Variable E : Env.

Lemma read_classnames_Ok n : forall buf s,
  exists names s', read_classnames n buf s = Ok (names, s')
    /\ le_stream s s' /\ length names = n.
Proof.
  induction n as [|n IH]; intros buf s.
  - exists [], s. simpl. split; [reflexivity |].
    split; [apply le_stream_refl | reflexivity].
  - cbn [read_classnames]. unfold bind at 1. unfold readM.
    pose proof (le_stream_read 8 buf s) as L.
    destruct (read 8 buf s) as [c s1]. cbn [snd] in L.
    destruct (IH c s1) as (names & s' & H & L' & Hlen).
    exists (c :: names), s'. rewrite (bind_Ok _ _ _ _ _ H).
    split; [reflexivity |]. split; [eapply le_stream_trans; eauto |].
    simpl. rewrite Hlen. reflexivity.
Qed.

(** The loop over the classes raises nothing: it returns, or a count times
    four overflows. *)
Lemma read_class_vars_outcome cs : forall m s,
  (exists m' s', read_class_vars cs m s = Ok (m', s') /\ le_stream s s')
  \/ read_class_vars cs m s = Undefined.
Proof.
  induction cs as [|[c n] cs IH]; intros m s.
  - left. exists m, s. split; [reflexivity | apply le_stream_refl].
  - cbn [read_class_vars]. unfold bind, seekg_curM, readM, undefined.
    pose proof (le_stream_seekg_cur 4 s) as L1.
    destruct (INT_MAX <? n * 4)%Z; [right; reflexivity |].
    pose proof (le_stream_read (Z.to_nat (n * 4)) (zeros (Z.to_nat (n * 4)))
                  (seekg_cur 4 s)) as L2.
    destruct (read _ _ (seekg_cur 4 s)) as [buf s2]. cbn [snd] in L2.
    pose proof (le_stream_seekg_cur 8 s2) as L3.
    match goal with
    | |- context [read_class_vars cs ?m' ?s'] =>
        destruct (IH m' s') as [(m2 & s3 & -> & L4) | ->]
    end.
    + left. exists m2, s3. split; [reflexivity |].
      eapply le_stream_trans; [exact L1 |].
      eapply le_stream_trans; [exact L2 |].
      eapply le_stream_trans; [exact L3 | exact L4].
    + right. reflexivity.
Qed.

(** The catalog decoder returns only on a good stream, whose bytes and
    position it has not moved back; it raises [bad_header],
    [unexpected_eof], or [length_error] for a negative class count, and
    nothing else. *)
Theorem read_varnames_outcomes (nc : Z) (s : istream) :
  (forall vn s', read_varnames E nc s = Ok (vn, s') ->
     good s' = true /\ content s' = content s /\ pos s <= pos s'
     /\ (0 <= nc)%Z)
  /\ (forall e, read_varnames E nc s = Throw e ->
        (e = LengthError /\ (nc < 0)%Z)
        \/ ((0 <= nc)%Z /\ (e = BadHeader \/ e = UnexpectedEof))).
Proof.
  unfold read_varnames.
  destruct (Z.ltb_spec nc 0) as [Hneg | Hpos].
  { split; [discriminate |]. intros e [= <-]. left. auto. }
  unfold bind, seekg_curM, readM, eofM, goodM, throw, ret, undefined.
  pose proof (le_stream_seekg_cur 8 s) as L1.
  destruct (read_classnames_Ok (Z.to_nat nc) (indeterminate E 8)
              (seekg_cur 8 s)) as (names & s2 & H2 & L2 & _).
  rewrite H2.
  pose proof (le_stream_seekg_cur 8 s2) as L3.
  destruct (INT_MAX <? nc * 4)%Z.
  { split; discriminate. }
  pose proof (le_stream_read (Z.to_nat (nc * 4)) (zeros (Z.to_nat (nc * 4)))
                (seekg_cur 8 s2)) as L4.
  destruct (read _ _ (seekg_cur 8 s2)) as [mem s4]. cbn [snd] in L4.
  destruct (existsb negative _).
  { split; [discriminate |]. intros e [= <-]. right. auto. }
  pose proof (le_stream_seekg_cur 8 s4) as L5.
  match goal with
  | |- context [read_class_vars ?cs ∅ ?s'] =>
      destruct (read_class_vars_outcome cs ∅ s') as [(m & s6 & H6 & L6) | H6];
        rewrite H6
  end.
  2: { split; discriminate. }
  destruct (eof s6 || negb (good s6)) eqn:Hchk.
  { split; [discriminate |]. intros e [= <-]. right. auto. }
  split; [| discriminate].
  intros vn s' [= <- <-].
  apply orb_false_elim in Hchk as [_ Hg]. apply negb_false_iff in Hg.
  assert (L : le_stream s s6).
  { eapply le_stream_trans; [exact L1 |].
    eapply le_stream_trans; [exact L2 |].
    eapply le_stream_trans; [exact L3 |].
    eapply le_stream_trans; [exact L4 |].
    eapply le_stream_trans; [exact L5 | exact L6]. }
  destruct L as (C & _ & P & _). auto.
Qed.

End CatalogOutcomes.

Lemma read_varnames_outcomes_witness :
  good (state_at sample_two_classes true 80) = true
  /\ content (state_at sample_two_classes true 80) = sample_two_classes
  /\ 0 <= 80 /\ (0 <= 2)%Z.
Proof.
  apply (proj1 (read_varnames_outcomes sample_env 2
                  (state_at sample_two_classes true 0)) sample_two_catalog).
  vm_compute. reflexivity.
Defined.

(** ** Values read without a check of the stream *)

Lemma be_int32s_zeros (n : nat) :
  be_int32s n (zeros (n * 4)) = replicate n 0%Z.
Proof.
  induction n as [|n IH]; [reflexivity |].
  change (zeros (S n * 4))
    with ("000"%byte :: "000"%byte :: "000"%byte :: "000"%byte
          :: zeros (n * 4)).
  cbn [be_int32s replicate take drop]. rewrite take_0, drop_0, IH.
  reflexivity.
Qed.

(** [read_vars] does not look at the state of the stream.  Whatever the
    stream, it appends one sample per variable code, in the order of the
    codes, with the timestep, time, max-perforation count, class name and
    instance name it was given; on a stream that is not good nothing is
    extracted, the stream is left failed, and every one of these samples has
    the value +0.0 of the zeroed buffer. *)
Theorem read_vars_unchecked (data : list NexusData) (ts : Z) (t : float)
    (mp : Z) (c i : list byte) (vs : list (list byte)) (s : istream) :
  exists xs,
    length xs = length vs
    /\ read_vars data ts t mp c i vs s
       = Ok (data ++ zip_with (mk_sample ts t mp c i) vs xs,
             (read (length vs * 4) (zeros (length vs * 4)) s).2)
    /\ (good s = false ->
        xs = replicate (length vs) 0%Z
        /\ zip_with (mk_sample ts t mp c i) vs xs
           = map (fun v => {| timestep := ts; time := t; max_perfs := mp;
                              classname := c; instancename := i;
                              varname := v; value := Float 0 |}) vs
        /\ failed (read (length vs * 4) (zeros (length vs * 4)) s).2).
Proof.
  exists (be_int32s (length vs)
            (read (length vs * 4) (zeros (length vs * 4)) s).1).
  split; [apply length_be_int32s |]. split.
  - unfold read_vars, bind, readM, ret.
    destruct (read _ _ s) as [mem s']. rewrite ntoh_int32s_of_mem.
    reflexivity.
  - intros Hg. unfold read. rewrite Hg. cbn [fst snd].
    assert (Hz : take (length vs * 4) (zeros (length vs * 4))
                 = zeros (length vs * 4))
      by (apply take_ge; unfold zeros; rewrite length_replicate; lia).
    rewrite Hz, be_int32s_zeros. split; [reflexivity |].
    split; [| reflexivity].
    clear. induction vs as [|v vs IH]; [reflexivity |].
    cbn [length replicate zip_with map]. rewrite IH. reflexivity.
Qed.

Lemma read_vars_unchecked_witness :
  exists xs,
    read_vars [] 7 (Float 0) 0 (bytes_of "FIELD   ") (bytes_of "NETWORK ")
      [bytes_of "QOP "] (set_fail (open_file []))
    = Ok ([] ++ zip_with (mk_sample 7 (Float 0) 0 (bytes_of "FIELD   ")
                            (bytes_of "NETWORK ")) [bytes_of "QOP "] xs,
          (read 4 (zeros 4) (set_fail (open_file []))).2)
    /\ xs = [0%Z].
Proof.
  destruct (read_vars_unchecked [] 7 (Float 0) 0 (bytes_of "FIELD   ")
              (bytes_of "NETWORK ") [bytes_of "QOP "]
              (set_fail (open_file []))) as (xs & _ & H & Hz).
  exists xs. split; [exact H |]. apply (Hz eq_refl).
Defined.

(** ** The samples of a decoded plot belong to the catalog *)

Lemma Forall_zip_with_mk (Q : NexusData -> Prop) ts t mp c i
    (vs : list (list byte)) :
  forall xs,
    (forall v x, v ∈ vs -> Q (mk_sample ts t mp c i v x)) ->
    Forall Q (zip_with (mk_sample ts t mp c i) vs xs).
Proof.
  induction vs as [|v vs IH]; intros xs HQ; [constructor |].
  destruct xs as [|x xs]; [constructor |].
  cbn [zip_with]. constructor.
  - apply HQ. left.
  - apply IH. intros v' x' Hin. apply HQ. right. exact Hin.
Qed.

Section SamplesInCatalog.

Variable E : Env.

Let from (c : list byte) (vs : list (list byte)) (d : NexusData) : Prop :=
  classname d = c /\ varname d ∈ vs.

Lemma read_vars_new data ts t mp c i vs s d s' :
  read_vars data ts t mp c i vs s = Ok (d, s') ->
  exists new, d = data ++ new /\ Forall (from c vs) new.
Proof.
  destruct (read_vars_unchecked data ts t mp c i vs s) as (xs & _ & -> & _).
  intros [= <- <-]. eexists. split; [reflexivity |].
  apply Forall_zip_with_mk. intros v x Hin. split; [reflexivity | exact Hin].
Qed.

Lemma read_items_new n : forall ts t mp c vs data s d s',
  read_items E n ts t mp c vs data s = Ok (d, s') ->
  exists new, d = data ++ new /\ Forall (from c vs) new.
Proof.
  induction n as [|n IH]; intros ts t mp c vs data s d s' H.
  - injection H as <- <-. exists []. rewrite app_nil_r. auto.
  - cbn [read_items] in H. apply bind_Ok_inv in H as (d1 & s1 & H1 & H).
    unfold read_item in H1. inv_bind H1.
    apply read_vars_new in H1 as (new1 & -> & F1).
    apply IH in H as (new2 & -> & F2).
    exists (new1 ++ new2). rewrite app_assoc. split; [reflexivity |].
    apply Forall_app; auto.
Qed.

Variable varnames : gmap (list byte) (list (list byte)).

Lemma read_block_new c data s d s' :
  read_block E varnames c data s = Ok (d, s') ->
  exists new,
    d = data ++ new /\ Forall (from c (default [] (varnames !! c))) new.
Proof.
  unfold read_block. intros H. inv_bind H.
  match goal with
  | Hi : read_items _ _ _ _ _ _ _ _ _ = Ok _ |- _ =>
      apply read_items_new in Hi as (new & -> & F)
  end.
  unfold ret in H. injection H as <- <-. eauto.
Qed.

Lemma load_loop_new fuel : forall data s d,
  load_loop E fuel varnames data s = Some (Ok d) ->
  exists new, d = data ++ new /\ Forall (sample_in_catalog varnames) new.
Proof.
  induction fuel as [|fuel IH]; intros data s d H; [discriminate |].
  cbn [load_loop] in H. unfold read_str, readM in H.
  destruct (read 8 (indeterminate E 8) s) as [c s1].
  unfold bytes_eqb in H. case_bool_decide as Hc.
  - injection H as <-. exists []. rewrite app_nil_r. auto.
  - destruct (read_block E varnames c data s1) as [[d1 s2] | e |] eqn:Hb;
      try discriminate.
    apply read_block_new in Hb as (new1 & -> & F1).
    apply IH in H as (new2 & -> & F2).
    exists (new1 ++ new2). rewrite app_assoc. split; [reflexivity |].
    apply Forall_app. split; [| exact F2].
    eapply Forall_impl; [exact F1 |].
    intros x (Hx & Hv). unfold sample_in_catalog. rewrite Hx.
    split; [exact Hc |].
    destruct (varnames !! c) as [vs |]; simpl in Hv.
    + eauto.
    + inversion Hv.
Qed.

End SamplesInCatalog.

(** A plot [nex::load] returns carries the header [read_header] gave, and
    each of its samples has a class name that is not the sentinel and that
    the catalog holds, and a variable code the catalog lists for that
    class. *)
Theorem load_samples_in_catalog (E : Env) (s : istream) (plt : NexusPlot) :
  load E s = Some (Ok plt) ->
  exists s1 vn s2,
    read_header E s = Ok (header plt, s1)
    /\ read_varnames E (num_classes E (header plt)) s1 = Ok (vn, s2)
    /\ Forall (sample_in_catalog vn) (data plt).
Proof.
  unfold load. intros H.
  destruct (read_header E s) as [[h s1] | e |]; try discriminate.
  destruct (read_varnames E (num_classes E h) s1) as [[vn s2] | e |] eqn:H2;
    try discriminate.
  destruct (load_loop E (load_fuel s2) vn [] s2) as [[d | e |] |] eqn:H3;
    try discriminate.
  injection H as <-. cbn [header data].
  apply load_loop_new in H3 as (new & -> & F).
  exists s1, vn, s2. auto.
Qed.

Lemma load_samples_in_catalog_witness :
  exists s1 vn s2,
    read_header sample_env (open_file sample_file)
    = Ok (sample_nexus_header, s1)
    /\ read_varnames sample_env 1 s1 = Ok (vn, s2)
    /\ Forall (sample_in_catalog vn) sample_data.
Proof.
  apply (load_samples_in_catalog sample_env (open_file sample_file)
           {| header := sample_nexus_header; data := sample_data |}).
  vm_compute. reflexivity.
Defined.

(** ** A record stream that is all there *)

Lemma block_bytes_pos vn b : block_ok vn b -> 0 < length (block_bytes b).
Proof.
  intros (Hc & _). unfold block_bytes. rewrite length_app, Hc. lia.
Qed.

Lemma length_concat_blocks vn bl :
  Forall (block_ok vn) bl -> length bl <= length (concat (map block_bytes bl)).
Proof.
  induction 1 as [|b bl Hb _ IH]; [reflexivity |].
  simpl. rewrite length_app. pose proof (block_bytes_pos vn b Hb). lia.
Qed.

Lemma load_loop_blocks E vn bs pe bl : forall p data r fuel,
  Forall (block_ok vn) bl ->
  unread_is bs p (concat (map block_bytes bl) ++ stop ++ r) ->
  length bl < fuel ->
  load_loop E fuel vn data (state_at bs pe p)
  = Some (Ok (data ++ concat (map (block_samples vn) bl))).
Proof.
  induction bl as [|b bl IH]; intros p data r fuel Hok H Hfuel.
  - destruct fuel as [|fuel]; [lia |]. simpl in H.
    destruct (read_unread 8 (indeterminate E 8) bs pe p stop r H eq_refl)
      as [H1 _].
    cbn [load_loop]. unfold read_str. rewrite H1.
    unfold bytes_eqb. rewrite bool_decide_eq_true_2 by reflexivity.
    simpl. rewrite app_nil_r. reflexivity.
  - destruct fuel as [|fuel]; [simpl in Hfuel; lia |].
    apply Forall_cons in Hok as [Hb Hok].
    destruct Hb as (Hc & Hns & Hs0 & Hh & Hs1 & [ts Hts] & [mp Hmp]
                    & (ni & Hni & Hlen) & Hits).
    cbn [map concat] in H. unfold block_bytes at 1 in H.
    rewrite <- !app_assoc in H.
    destruct (read_unread 8 (indeterminate E 8) bs pe p _ _ H Hc) as [H1 U1].
    destruct (read_block_complete E bs pe vn (b_class b) _ data _ _ _ _ _ _
                ts ni mp eq_refl U1 Hs0 Hh Hs1 Hits Hts Hni Hlen Hmp)
      as [H2 U2].
    cbn [load_loop]. unfold read_str. rewrite H1.
    unfold bytes_eqb. rewrite bool_decide_eq_false_2 by exact Hns.
    rewrite H2.
    rewrite (IH _ _ r fuel Hok U2) by (simpl in Hfuel; lia).
    cbn [map concat]. rewrite <- app_assoc. unfold block_samples at 2.
    rewrite Hts, Hmp. reflexivity.
Qed.

(** Decoding composes: on a stream whose header and catalog decode and
    whose rest is a sequence of blocks, each all there for the catalog, and
    then the sentinel, [nex::load] returns the header with the samples of
    the blocks, block after block, item after item, code after code.
    Bytes behind the sentinel are not looked at. *)
Theorem load_file_decoded (E : Env) (s : istream)
    (h : NexusHeader) (s1 : istream)
    (vn : gmap (list byte) (list (list byte))) (s2 : istream)
    (bl : list block) (r : list byte) :
  read_header E s = Ok (h, s1) ->
  read_varnames E (num_classes E h) s1 = Ok (vn, s2) ->
  drop (pos s2) (content s2) = concat (map block_bytes bl) ++ stop ++ r ->
  Forall (block_ok vn) bl ->
  load E s
  = Some (Ok {| header := h;
                data := concat (map (block_samples vn) bl) |}).
Proof.
  intros H1 H2 Hrest Hok. rewrite (load_unfold E s h s1 vn s2 H1 H2).
  pose proof (read_varnames_Ok_good _ _ _ _ _ H2) as Hg. clear H1 H2.
  destruct s2 as [bs p e f pe]. unfold good in Hg. simpl in Hg.
  cbn [pos content] in Hrest.
  destruct e, f; try discriminate. clear Hg.
  change (Istream bs p false false pe) with (state_at bs pe p).
  pose proof (length_concat_blocks vn bl Hok) as Hbl.
  pose proof (f_equal length Hrest) as Hl.
  rewrite length_drop, !length_app in Hl. change (length stop) with 8 in Hl.
  rewrite (load_loop_blocks E vn bs pe bl p [] r).
  - reflexivity.
  - exact Hok.
  - split; [lia | exact Hrest].
  - unfold load_fuel. simpl. lia.
Qed.

Lemma load_file_decoded_witness :
  load sample_env (open_file sample_file)
  = Some (Ok {| header := sample_nexus_header; data := sample_data |}).
Proof.
  apply (load_file_decoded sample_env (open_file sample_file)
           sample_nexus_header (state_at sample_file true 872)
           sample_varnames (state_at sample_file true 928)
           [sample_block_record] []
           ltac:(vm_compute; reflexivity) ltac:(vm_compute; reflexivity)
           ltac:(vm_compute; reflexivity)).
  repeat constructor; try (vm_compute; discriminate); try reflexivity.
  - exists 1%Z. vm_compute. reflexivity.
  - exists 0%Z. vm_compute. reflexivity.
  - exists 1%Z. split; vm_compute; reflexivity.
Defined.

(** ** The header decoder starts over from the front of the stream *)

Lemma read_header_via_seek E s s' :
  seekg_beg 4 s = seekg_beg 4 s' -> read_header E s = read_header E s'.
Proof. intros H. rewrite !read_header_unfold, H. reflexivity. Qed.

Lemma read_header_seek_failed E s :
  failed (seekg_beg 4 s) -> read_header E s = Throw BadHeader.
Proof.
  intros H. rewrite read_header_unfold.
  rewrite (good_failed _ (read_keeps_failed 12 _ _ H)), orb_true_r.
  reflexivity.
Qed.

Lemma seek_to_unfailed q c p e pe :
  seek_to q (Istream c p e false pe)
  = if (q <=? length c) || pe then Istream c q false false pe
    else Istream c p false true pe.
Proof. reflexivity. Qed.

(** [read_header] seeks to byte 4 from the beginning and [seekg] clears
    [eofbit]: the header decoded, and with it the whole of [nex::load], does
    not depend on where the get position was nor on [eofbit]. *)
Theorem read_header_rewinds (E : Env) (c : list byte) (p p' : nat)
    (e e' f pe : bool) :
  read_header E (Istream c p e f pe) = read_header E (Istream c p' e' f pe)
  /\ load E (Istream c p e f pe) = load E (Istream c p' e' f pe).
Proof.
  assert (H : read_header E (Istream c p e f pe)
              = read_header E (Istream c p' e' f pe)).
  { destruct f.
    - rewrite !read_header_seek_failed; reflexivity.
    - destruct ((4 <=? length c) || pe) eqn:Hseek.
      + apply read_header_via_seek. unfold seekg_beg.
        rewrite !seek_to_unfailed, Hseek. reflexivity.
      + rewrite !read_header_seek_failed; trivial;
          unfold failed, seekg_beg; rewrite seek_to_unfailed, Hseek;
          reflexivity. }
  split; [exact H |]. unfold load. rewrite H. reflexivity.
Qed.

(** ** The unit system is constructed before the integers are read *)

(** With the type tag in place and the six bytes of the unit-system tag
    there, what the constructor of [UnitSystem] raises on these bytes is
    what [read_header] raises, whether or not the rest of the header is
    there and whatever its integers are. *)
Theorem read_header_unit_system_error (E : Env) (s : istream)
    (e : exception) :
  failbit s = false ->
  type_tag (content s) = th0 ->
  46 <= length (content s) ->
  UnitSystem_of_tag E (unit_tag (content s)) = Throw e ->
  read_header E s = Throw e.
Proof.
  intros Hf Htag Hlen Hu.
  rewrite (read_header_past_tag E s Hf Htag).
  rewrite (r4_unit_there E s Hf Htag Hlen). cbn [fst snd].
  rewrite Hu. reflexivity.
Qed.

Lemma read_header_unit_system_error_witness :
  read_header sample_env
    (open_file (zeros 4 ++ bytes_of "PLOT  BIN   " ++ zeros 24
                ++ bytes_of "FIELD "))
  = Throw UnrecognizedUnitSystem.
Proof.
  apply read_header_unit_system_error.
  - reflexivity.
  - reflexivity.
  - vm_compute. lia.
  - reflexivity.
Defined.
